(** * cobalt-mysql-pool: a fixed-size pool of MySQL connections

    A shallow embedding of [cobalt-mysql-pool.c] and of the two constants of
    [cobalt-mysql-pool.h].  The static variables of the module form one
    record, [pool]; every API function is a function from the outcomes of
    the external calls it makes (POSIX threads, semaphores, the clock, the
    MySQL client library) and a [pool] to the value it returns and the
    [pool] it leaves behind.  One thread runs at a time: a call that would
    wait for another thread (a semaphore at zero, a mutex that is held) does
    not return, which is written [Blocks]. *)

From Stdlib Require Import ZArith Lia.
From stdpp Require Import base numbers list strings pretty.

Local Open Scope Z_scope.

(** ** Constants of the header *)

(** [#define DB_POOL_CONN_COUNT (8U)] *)
Definition DB_POOL_CONN_COUNT : nat := 8.

(** [#define DEFAULT_MUTEX_TIMEOUT_SEC (30)] *)
Definition DEFAULT_MUTEX_TIMEOUT_SEC : Z := 30.

(** ** Data *)

(** A [MYSQL *]: the null pointer, or the address of a connection object. *)
Inductive MYSQL_ptr : Type :=
| NULL : MYSQL_ptr
| Addr : nat -> MYSQL_ptr.

Global Instance MYSQL_ptr_eq_dec : EqDecision MYSQL_ptr.
Proof. solve_decision. Defined.

Global Instance MYSQL_ptr_inhabited : Inhabited MYSQL_ptr := populate NULL.

(** [!p] on a pointer. *)
Definition is_null (p : MYSQL_ptr) : bool :=
  match p with NULL => true | Addr _ => false end.

(** The static message strings, by the name of the variable that holds
    them. *)
Inductive err_msg : Type :=
| err_not_inited | err_not_thread_safe | err_not_open | err_input
| err_unknown | err_init_lib | err_init_mutex | err_init_rwlock
| err_init_semaphore | err_connect | err_reconnect | err_init | err_ping
| err_mutex | err_rwlock | err_semaphore_wait | err_semaphore_post
| err_clock_gettime | err_no_free_slot_bug | err_no_busy_slot_bug.

Global Instance err_msg_eq_dec : EqDecision err_msg.
Proof. solve_decision. Defined.

Definition err_text (m : err_msg) : string :=
  match m with
  | err_not_inited => "database library can not be initialized"
  | err_not_thread_safe => "database library is not thread-safe"
  | err_not_open => "database connection is closed"
  | err_input => "invalid input parameters"
  | err_unknown => "unknown error or no error"
  | err_init_lib => "failed to initialize the database library"
  | err_init_mutex => "failed to initialize the mutex"
  | err_init_rwlock => "failed to initialize the rw-lock"
  | err_init_semaphore => "failed to initialize the semaphore"
  | err_connect => "can not connect to the database"
  | err_reconnect => "can not reconnect to the database"
  | err_init => "the database is not initialized"
  | err_ping => "database ping was not successful"
  | err_mutex => "can not acquire the database mutex"
  | err_rwlock => "can not acquire the database rw-lock"
  | err_semaphore_wait => "semaphore wait error"
  | err_semaphore_post => "semaphore post error"
  | err_clock_gettime => "clock_gettime failed"
  | err_no_free_slot_bug => "no free slot found, this is a bug"
  | err_no_busy_slot_bug => "no busy slot found, this is a bug"
  end.

(** The static variables of the module.  [err_last] is [None] for the null
    pointer.  [db_mutex] is [true] while the mutex is locked; [db_sem] is
    the value of the semaphore.  The read-write lock carries no state here:
    every function that takes it gives it back before it returns.
    [mysql_closed] is not a variable of the program: it records the
    pointers handed to [mysql_close], most recent first. *)
Record pool : Type := mk_pool {
  err_last : option err_msg;
  db_mutex : bool;
  db_sem : Z;
  mysql_conns : list MYSQL_ptr;
  mysql_conns_busy : list Z;
  is_thread_safe : Z;
  is_inited : Z;
  is_open : Z;
  is_closed : Z;
  mysql_closed : list MYSQL_ptr
}.

(** The values of the static initialisers. *)
Definition init_pool : pool :=
  {| err_last := None;
     db_mutex := false;
     db_sem := 0;
     mysql_conns := replicate DB_POOL_CONN_COUNT NULL;
     mysql_conns_busy := replicate DB_POOL_CONN_COUNT 0;
     is_thread_safe := 0;
     is_inited := 0;
     is_open := 0;
     is_closed := 1;
     mysql_closed := [] |}.

(** Assignments to single variables. *)
Definition set_err_last (m : err_msg) (st : pool) : pool :=
  mk_pool (Some m) (db_mutex st) (db_sem st) (mysql_conns st)
    (mysql_conns_busy st) (is_thread_safe st) (is_inited st) (is_open st)
    (is_closed st) (mysql_closed st).

Definition set_db_mutex (b : bool) (st : pool) : pool :=
  mk_pool (err_last st) b (db_sem st) (mysql_conns st)
    (mysql_conns_busy st) (is_thread_safe st) (is_inited st) (is_open st)
    (is_closed st) (mysql_closed st).

Definition set_db_sem (n : Z) (st : pool) : pool :=
  mk_pool (err_last st) (db_mutex st) n (mysql_conns st)
    (mysql_conns_busy st) (is_thread_safe st) (is_inited st) (is_open st)
    (is_closed st) (mysql_closed st).

Definition set_mysql_conns (l : list MYSQL_ptr) (st : pool) : pool :=
  mk_pool (err_last st) (db_mutex st) (db_sem st) l
    (mysql_conns_busy st) (is_thread_safe st) (is_inited st) (is_open st)
    (is_closed st) (mysql_closed st).

Definition set_mysql_conns_busy (l : list Z) (st : pool) : pool :=
  mk_pool (err_last st) (db_mutex st) (db_sem st) (mysql_conns st)
    l (is_thread_safe st) (is_inited st) (is_open st)
    (is_closed st) (mysql_closed st).

Definition set_is_thread_safe (v : Z) (st : pool) : pool :=
  mk_pool (err_last st) (db_mutex st) (db_sem st) (mysql_conns st)
    (mysql_conns_busy st) v (is_inited st) (is_open st)
    (is_closed st) (mysql_closed st).

Definition set_is_inited (v : Z) (st : pool) : pool :=
  mk_pool (err_last st) (db_mutex st) (db_sem st) (mysql_conns st)
    (mysql_conns_busy st) (is_thread_safe st) v (is_open st)
    (is_closed st) (mysql_closed st).

Definition set_is_open (v : Z) (st : pool) : pool :=
  mk_pool (err_last st) (db_mutex st) (db_sem st) (mysql_conns st)
    (mysql_conns_busy st) (is_thread_safe st) (is_inited st) v
    (is_closed st) (mysql_closed st).

Definition set_is_closed (v : Z) (st : pool) : pool :=
  mk_pool (err_last st) (db_mutex st) (db_sem st) (mysql_conns st)
    (mysql_conns_busy st) (is_thread_safe st) (is_inited st) (is_open st)
    v (mysql_closed st).

Definition set_mysql_closed (l : list MYSQL_ptr) (st : pool) : pool :=
  mk_pool (err_last st) (db_mutex st) (db_sem st) (mysql_conns st)
    (mysql_conns_busy st) (is_thread_safe st) (is_inited st) (is_open st)
    (is_closed st) l.

(** [mysql_conns[i]] and [mysql_conns_busy[i]], read and written.  Every
    index the program uses is below [DB_POOL_CONN_COUNT]. *)
Definition conn_at (st : pool) (i : nat) : MYSQL_ptr := mysql_conns st !!! i.

Definition busy_at (st : pool) (i : nat) : Z := mysql_conns_busy st !!! i.

Definition set_conn (i : nat) (p : MYSQL_ptr) (st : pool) : pool :=
  set_mysql_conns (<[i:=p]> (mysql_conns st)) st.

Definition set_busy (i : nat) (v : Z) (st : pool) : pool :=
  set_mysql_conns_busy (<[i:=v]> (mysql_conns_busy st)) st.

(** Both arrays have [DB_POOL_CONN_COUNT] cells. *)
Definition pool_wf (st : pool) : Prop :=
  length (mysql_conns st) = DB_POOL_CONN_COUNT /\
  length (mysql_conns_busy st) = DB_POOL_CONN_COUNT.

(** ** External calls *)

(** What a call on a synchronisation object does to the caller: it comes
    back with success, it comes back with an error code, or it does not
    come back while no other thread acts. *)
Inductive sys : Type :=
| Ok : pool -> sys
| Err : sys
| Wait : sys.

(** [pthread_mutex_lock(&db_mutex)]; [rc] is the code the call gives when
    it is not left waiting. *)
Definition pthread_mutex_lock (rc : Z) (st : pool) : sys :=
  if negb (rc =? 0) then Err
  else if db_mutex st then Wait
  else Ok (set_db_mutex true st).

(** [pthread_mutex_timedlock(&db_mutex, &tmo_timespec)]; [rc] tells, for
    each absolute deadline in seconds, the code of the call on a free mutex
    (non-zero when other threads keep the mutex until after the deadline).  A mutex that is held in [st] stays held, and the call
    times out. *)
Definition pthread_mutex_timedlock (rc : Z -> Z) (deadline : Z) (st : pool) : sys :=
  if negb (rc deadline =? 0) then Err
  else if db_mutex st then Err
  else Ok (set_db_mutex true st).

Definition pthread_mutex_unlock (st : pool) : pool := set_db_mutex false st.

Definition pthread_mutex_destroy (st : pool) : pool := st.

(** The read-write lock: only the code of the locking call matters. *)
Definition pthread_rwlock_unlock (st : pool) : pool := st.

Definition pthread_rwlock_destroy (st : pool) : pool := st.

(** [sem_wait(&db_sem)]. *)
Definition sem_wait (rc : Z) (st : pool) : sys :=
  if negb (rc =? 0) then Err
  else if 0 <? db_sem st then Ok (set_db_sem (db_sem st - 1) st)
  else Wait.

(** [sem_post(&db_sem)]: the new state and the code of the call. *)
Definition sem_post (rc : Z) (st : pool) : pool * Z :=
  if negb (rc =? 0) then (st, rc) else (set_db_sem (db_sem st + 1) st, 0).

(** [mysql_close(p)]. *)
Definition mysql_close (p : MYSQL_ptr) (st : pool) : pool :=
  set_mysql_closed (p :: mysql_closed st) st.

(** What an API call does: it returns a value, or it does not return. *)
Inductive outcome (A : Type) : Type :=
| Returns : A -> pool -> outcome A
| Blocks : pool -> outcome A.

Arguments Returns {A} _ _.
Arguments Blocks {A} _.

(** The state a call leaves behind. *)
Definition state_of {A : Type} (o : outcome A) : pool :=
  match o with Returns _ st => st | Blocks st => st end.

(** ** db_error *)

(** [rdlock] is the code of [pthread_rwlock_rdlock]. *)
Definition db_error (rdlock : Z) (st : pool) : err_msg :=
  match err_last st with
  | Some m => m
  | None =>
    if is_thread_safe st =? 0 then err_not_thread_safe
    else if is_inited st =? 0 then err_not_inited
    else if negb (rdlock =? 0) then err_rwlock
    else if is_open st =? 0 then err_not_open
    else err_unknown
  end.

(** ** db_open *)

(** The outcomes of the calls that fill one empty slot: [mysql_init],
    [mysql_options], [mysql_real_connect] and [mysql_autocommit]. *)
Record conn_attempt : Type := mk_attempt {
  ca_init : MYSQL_ptr;
  ca_options : Z;
  ca_real_connect : MYSQL_ptr;
  ca_autocommit : Z
}.

(** The outcomes of the external calls of one [db_open]: the library and
    lock initialisation, the mutex, the calls for slot [i] ([oe_connect i]
    when the slot is empty, [oe_ping i] when it is not), and the write
    lock. *)
Record open_env : Type := mk_open_env {
  oe_thread_safe : Z;
  oe_library_init : Z;
  oe_mutex_init : Z;
  oe_rwlock_init : Z;
  oe_sem_init : Z;
  oe_mutex_lock : Z;
  oe_connect : nat -> conn_attempt;
  oe_ping : nat -> Z;
  oe_wrlock : Z
}.

(** The block under [if (!is_inited)]: [inl] is an early [return -1],
    [inr] goes on to the mutex. *)
Definition open_init (e : open_env) (st : pool) : pool + pool :=
  if is_inited st =? 0 then
    if oe_thread_safe e =? 0 then inl (set_is_thread_safe 0 st)
    else
      let st := set_is_thread_safe 1 st in
      if negb (oe_library_init e =? 0) then inl (set_err_last err_init_lib st)
      else if negb (oe_mutex_init e =? 0) then
        inl (set_err_last err_init_mutex st)
      else
        let st := set_db_mutex false st in
        if negb (oe_rwlock_init e =? 0) then
          inl (set_err_last err_init_rwlock (pthread_mutex_destroy st))
        else if negb (oe_sem_init e =? 0) then
          inl (set_err_last err_init_semaphore
                 (pthread_mutex_destroy (pthread_rwlock_destroy st)))
        else
          let st := set_db_sem (Z.of_nat DB_POOL_CONN_COUNT) st in
          inr (set_is_inited 1 st)
  else inr st.

(** The [for (;;)] loop that closes the connections of slots [i] down to
    [0]. *)
Fixpoint open_rollback (st : pool) (i : nat) : pool :=
  let st :=
    if is_null (conn_at st i) then st
    else set_conn i NULL (mysql_close (conn_at st i) st) in
  match i with
  | O => st
  | S i' => open_rollback st i'
  end.

(** The test after [mysql_init]: the slot holds a null pointer, or one of
    the three calls that follow fails. *)
Definition attempt_failed (slot : MYSQL_ptr) (a : conn_attempt) : bool :=
  is_null slot || negb (ca_options a =? 0)
  || is_null (ca_real_connect a) || negb (ca_autocommit a =? 0).

(** The loop over the slots, from slot [i], with [fuel] slots to go:
    [inl] is a [return -1] from inside the loop, [inr] the state when the
    loop ends. *)
Fixpoint open_fill (e : open_env) (st : pool) (i fuel : nat) : pool + pool :=
  match fuel with
  | O => inr st
  | S fuel' =>
    if is_null (conn_at st i) then
      let a := oe_connect e i in
      let st := set_conn i (ca_init a) st in
      if attempt_failed (conn_at st i) a then
        inl (set_err_last err_connect
               (pthread_mutex_unlock (open_rollback st i)))
      else open_fill e st (S i) fuel'
    else
      if negb (oe_ping e i =? 0) then
        inl (set_err_last err_reconnect (pthread_mutex_unlock st))
      else open_fill e st (S i) fuel'
  end.

Definition db_open (e : open_env) (st : pool) : outcome Z :=
  match open_init e st with
  | inl st => Returns (-1) st
  | inr st =>
    match pthread_mutex_lock (oe_mutex_lock e) st with
    | Wait => Blocks st
    | Err => Returns (-1) (set_err_last err_mutex st)
    | Ok st =>
      match open_fill e st 0 DB_POOL_CONN_COUNT with
      | inl st => Returns (-1) st
      | inr st =>
        if negb (oe_wrlock e =? 0) then
          Returns (-1) (set_err_last err_rwlock (pthread_mutex_unlock st))
        else
          let st := set_is_open 1 st in
          let st := set_is_closed 0 st in
          let st := pthread_rwlock_unlock st in
          let st := pthread_mutex_unlock st in
          Returns 0 st
      end
    end
  end.

(** ** db_close *)

(** The outcomes of the external calls of one [db_close]: the write lock,
    the mutex at slot [i] of pass [p] of the [while] loop
    ([ce_mutex_lock p i]) and the semaphore wait of pass [p]. *)
Record close_env : Type := mk_close_env {
  ce_wrlock : Z;
  ce_mutex_lock : nat -> nat -> Z;
  ce_sem_wait : nat -> Z
}.

(** How one pass of the [for] loop ends: the loop is left with a value of
    [ready], the function returns from inside it, or the thread waits. *)
Inductive pass_end : Type :=
| PassEnd : Z -> pool -> pass_end
| PassReturn : Z -> pool -> pass_end
| PassBlocks : pool -> pass_end.

(** The [for] loop of pass [p], from slot [i], with [fuel] slots to go;
    [ready] is the value the variable has when the loop test is made. *)
Fixpoint close_pass (e : close_env) (p : nat) (ready : Z) (st : pool)
    (i fuel : nat) : pass_end :=
  match fuel with
  | O => PassEnd ready st
  | S fuel' =>
    match pthread_mutex_lock (ce_mutex_lock e p i) st with
    | Wait => PassBlocks st
    | Err => PassReturn (-1) (set_err_last err_mutex st)
    | Ok st =>
      if busy_at st i =? 1 then
        let st := pthread_mutex_unlock st in
        match sem_wait (ce_sem_wait e p) st with
        | Wait => PassBlocks st
        | Err => PassReturn (-1) (set_err_last err_semaphore_wait st)
        | Ok st => PassEnd 0 st
        end
      else
        let st := pthread_mutex_unlock st in
        close_pass e p 1 st (S i) fuel'
    end
  end.

(** The [while (!ready)] loop, at pass [p], with at most [fuel] passes;
    [None] when the passes are used up. *)
Fixpoint close_drain (e : close_env) (st : pool) (p fuel : nat)
    : option (outcome Z) :=
  match fuel with
  | O => None
  | S fuel' =>
    match close_pass e p 0 st 0 DB_POOL_CONN_COUNT with
    | PassEnd ready st =>
      if ready =? 0 then close_drain e st (S p) fuel'
      else Some (Returns 0 st)
    | PassReturn v st => Some (Returns v st)
    | PassBlocks st => Some (Blocks st)
    end
  end.

(** Every pass that leaves [ready] at [0] has taken one unit from the
    semaphore, so one pass more than its value is enough
    ([close_drain_enough] below): the last case is never taken. *)
Definition db_close (e : close_env) (st : pool) : outcome Z :=
  if is_inited st =? 0 then Returns (-1) (set_err_last err_init st)
  else if negb (ce_wrlock e =? 0) then
    Returns (-1) (set_err_last err_rwlock st)
  else if negb (is_closed st =? 0) then Returns 0 (pthread_rwlock_unlock st)
  else
    let st := set_is_open 0 st in
    let st := set_is_closed 1 st in
    let st := pthread_rwlock_unlock st in
    match close_drain e st 0 (S (Z.to_nat (db_sem st))) with
    | Some o => o
    | None => Blocks st
    end.

(** ** db_is_open, db_is_closed *)

Definition db_is_open (rdlock : Z) (st : pool) : outcome Z :=
  if is_inited st =? 0 then Returns 0 st
  else if negb (rdlock =? 0) then Returns (-1) (set_err_last err_rwlock st)
  else
    let result := is_open st in
    Returns result (pthread_rwlock_unlock st).

Definition db_is_closed (rdlock : Z) (st : pool) : outcome Z :=
  if is_inited st =? 0 then Returns 1 st
  else if negb (rdlock =? 0) then Returns (-1) (set_err_last err_rwlock st)
  else
    let result := is_closed st in
    Returns result (pthread_rwlock_unlock st).

(** ** db_get_conn *)

(** The outcomes of the external calls of one [db_get_conn], in the order
    of the calls; [ge_tv_sec] is the second [clock_gettime] reports. *)
Record get_env : Type := mk_get_env {
  ge_rdlock_first : Z;
  ge_sem_wait : Z;
  ge_clock_gettime : Z;
  ge_tv_sec : Z;
  ge_mutex_timedlock : Z -> Z;
  ge_rdlock_second : Z;
  ge_sem_post : Z
}.

(** The loop that takes the first slot that is not busy, from slot [i],
    with [fuel] slots to go: the state and the value of [mysql_conn] when
    the loop is left. *)
Fixpoint get_scan (st : pool) (i fuel : nat) : pool * MYSQL_ptr :=
  match fuel with
  | O => (st, NULL)
  | S fuel' =>
    if busy_at st i =? 0 then
      let st := set_busy i 1 st in
      (st, conn_at st i)
    else get_scan st (S i) fuel'
  end.

(** [if (sem_post(&db_sem) != 0) { }]: the code is not looked at. *)
Definition sem_post_ignored (rc : Z) (st : pool) : pool := fst (sem_post rc st).

Definition db_get_conn (e : get_env) (st : pool) : outcome MYSQL_ptr :=
  if is_inited st =? 0 then Returns NULL (set_err_last err_init st)
  else if negb (ge_rdlock_first e =? 0) then
    Returns NULL (set_err_last err_rwlock st)
  else if is_open st =? 0 then
    Returns NULL (set_err_last err_not_open (pthread_rwlock_unlock st))
  else
    let st := pthread_rwlock_unlock st in
    match sem_wait (ge_sem_wait e) st with
    | Wait => Blocks st
    | Err => Returns NULL (set_err_last err_semaphore_wait st)
    | Ok st =>
      if negb (ge_clock_gettime e =? 0) then
        Returns NULL
          (sem_post_ignored (ge_sem_post e) (set_err_last err_clock_gettime st))
      else
        let tv_sec := ge_tv_sec e + DEFAULT_MUTEX_TIMEOUT_SEC in
        match pthread_mutex_timedlock (ge_mutex_timedlock e) tv_sec st with
        | Wait => Blocks st
        | Err =>
          Returns NULL
            (sem_post_ignored (ge_sem_post e) (set_err_last err_mutex st))
        | Ok st =>
          if negb (ge_rdlock_second e =? 0) then
            Returns NULL (set_err_last err_rwlock st)
          else if is_open st =? 0 then
            let st := pthread_rwlock_unlock st in
            let st := pthread_mutex_unlock st in
            Returns NULL
              (sem_post_ignored (ge_sem_post e) (set_err_last err_not_open st))
          else
            let st := pthread_rwlock_unlock st in
            let '(st, mysql_conn) := get_scan st 0 DB_POOL_CONN_COUNT in
            if is_null mysql_conn then
              let st := pthread_mutex_unlock st in
              Returns NULL
                (sem_post_ignored (ge_sem_post e)
                   (set_err_last err_no_free_slot_bug st))
            else Returns mysql_conn (pthread_mutex_unlock st)
        end
    end.

(** ** db_post_conn *)

(** The outcomes of the external calls of one [db_post_conn]. *)
Record post_env : Type := mk_post_env {
  pe_mutex_lock : Z;
  pe_sem_post : Z
}.

(** The loop that gives [mysql_conn] to the first busy slot, from slot
    [i], with [fuel] slots to go: the state and the value of [found] when
    the loop is left. *)
Fixpoint post_scan (mysql_conn : MYSQL_ptr) (st : pool) (i fuel : nat)
    : pool * Z :=
  match fuel with
  | O => (st, 0)
  | S fuel' =>
    if negb (busy_at st i =? 0) then
      let st := set_conn i mysql_conn st in
      let st := set_busy i 0 st in
      (st, 1)
    else post_scan mysql_conn st (S i) fuel'
  end.

Definition db_post_conn (e : post_env) (mysql_conn : MYSQL_ptr) (st : pool)
    : outcome Z :=
  if is_inited st =? 0 then Returns (-1) (set_err_last err_init st)
  else if is_null mysql_conn then Returns (-1) (set_err_last err_input st)
  else
    match pthread_mutex_lock (pe_mutex_lock e) st with
    | Wait => Blocks st
    | Err => Returns (-1) (set_err_last err_mutex st)
    | Ok st =>
      let '(st, found) := post_scan mysql_conn st 0 DB_POOL_CONN_COUNT in
      if found =? 0 then
        Returns (-1)
          (set_err_last err_no_busy_slot_bug (pthread_mutex_unlock st))
      else
        let st := pthread_mutex_unlock st in
        let '(st, rc) := sem_post (pe_sem_post e) st in
        if negb (rc =? 0) then Returns (-1) (set_err_last err_semaphore_post st)
        else Returns 0 st
    end.

(** ** db_ping *)

(** [ping] is the code of [mysql_ping]. *)
Definition db_ping (ping : Z) (mysql_conn : MYSQL_ptr) (st : pool) : outcome Z :=
  if is_inited st =? 0 then Returns (-1) (set_err_last err_init st)
  else if is_null mysql_conn then Returns (-1) (set_err_last err_input st)
  else if negb (ping =? 0) then Returns (-1) (set_err_last err_ping st)
  else Returns 0 st.

(** ** Sequences of calls *)

(** One call of the API by the thread, with the outcomes of its external
    calls. *)
Inductive call : Type :=
| Open : open_env -> call
| Close : close_env -> call
| GetConn : get_env -> call
| PostConn : post_env -> MYSQL_ptr -> call.

(** What a call returns: an [int] or a handle. *)
Inductive value : Type :=
| VInt : Z -> value
| VPtr : MYSQL_ptr -> value.

Definition outcome_map {A B : Type} (f : A -> B) (o : outcome A) : outcome B :=
  match o with
  | Returns a st => Returns (f a) st
  | Blocks st => Blocks st
  end.

Definition exec (c : call) (st : pool) : outcome value :=
  match c with
  | Open e => outcome_map VInt (db_open e st)
  | Close e => outcome_map VInt (db_close e st)
  | GetConn e => outcome_map VPtr (db_get_conn e st)
  | PostConn e h => outcome_map VInt (db_post_conn e h st)
  end.

(** The state of the thread after the calls [cs], made one after the
    other from [st]; a call that does not return is the last one. *)
Fixpoint run (cs : list call) (st : pool) : pool :=
  match cs with
  | [] => st
  | c :: cs =>
    match exec c st with
    | Returns _ st => run cs st
    | Blocks st => st
    end
  end.

(** ** Concrete pools and environments used in the examples *)

(** Every external call succeeds; slot [i] gets the connection at address
    [i + 1]. *)
Definition open_env_ok : open_env :=
  mk_open_env 1 0 0 0 0 0
    (fun i => mk_attempt (Addr (S i)) 0 (Addr (S i)) 0) (fun _ => 0) 0.

Definition close_env_ok : close_env :=
  mk_close_env 0 (fun _ _ => 0) (fun _ => 0).

Definition get_env_ok : get_env :=
  mk_get_env 0 0 0 1000 (fun _ => 0) 0 0.

Definition post_env_ok : post_env := mk_post_env 0 0.

(** The pool after the first, successful [db_open]. *)
Definition open_pool : pool := state_of (db_open open_env_ok init_pool).

(** ** Pools, environments and predicates of the statements *)

(** The pool with the handles of slots 0 and 1 lent. *)
Definition two_lent_pool : pool :=
  run [Open open_env_ok; GetConn get_env_ok; GetConn get_env_ok] init_pool.

(** The first [db_open] in which [mysql_real_connect] fails for the third
    slot. *)
Definition open_env_third_fails : open_env :=
  mk_open_env 1 0 0 0 0 0
    (fun i => mk_attempt (Addr (S i)) 0
                (if (i =? 2)%nat then NULL else Addr (S i)) 0)
    (fun _ => 0) 0.

(** The state at the end of a pass of the drain loop. *)
Definition pass_state (r : pass_end) : pool :=
  match r with
  | PassEnd _ st => st
  | PassReturn _ st => st
  | PassBlocks st => st
  end.

(** The initialisation block goes on to the mutex: the pool is already
    initialised, or every initialisation call succeeds. *)
Definition init_succeeds (e : open_env) (st : pool) : Prop :=
  is_inited st <> 0 \/
  (oe_thread_safe e <> 0 /\ oe_library_init e = 0 /\ oe_mutex_init e = 0 /\
   oe_rwlock_init e = 0 /\ oe_sem_init e = 0).

(** The two flags are in one of the two states the calls put them in:
    closed (0, 1) or open (1, 0). *)
Definition lifecycle_ok (st : pool) : Prop :=
  (is_open st = 0 /\ is_closed st = 1) \/
  (is_open st = 1 /\ is_closed st = 0).

(** A call of [db_open] or of [db_close]. *)
Definition lifecycle_call (c : open_env + close_env) : call :=
  match c with
  | inl e => Open e
  | inr e => Close e
  end.

(** The number of slots whose busy flag is set. *)
Definition busy_count (st : pool) : Z :=
  Z.of_nat (length (filter (fun b => b <> 0) (mysql_conns_busy st))).

(** The handles on loan after [h] is given back. *)
Fixpoint remove_loan (h : MYSQL_ptr) (loans : list MYSQL_ptr)
    : list MYSQL_ptr :=
  match loans with
  | [] => []
  | x :: loans' =>
    if decide (x = h) then loans' else x :: remove_loan h loans'
  end.

(** The loan discipline of a sequence of [db_get_conn] and [db_post_conn]
    calls made from [st], [loans] being the handles on loan: every handle
    given to [db_post_conn] is on loan (it was returned by an earlier
    [db_get_conn] and has not been given back since), and is no longer on
    loan afterwards.  Calls behind a call that does not return are never
    made. *)
Fixpoint loan_discipline (loans : list MYSQL_ptr) (cs : list call)
    (st : pool) : bool :=
  match cs with
  | [] => true
  | GetConn e :: cs' =>
    match db_get_conn e st with
    | Returns h st' =>
      loan_discipline (if is_null h then loans else h :: loans) cs' st'
    | Blocks _ => true
    end
  | PostConn e h :: cs' =>
    bool_decide (h ∈ loans) &&
    match db_post_conn e h st with
    | Returns _ st' => loan_discipline (remove_loan h loans) cs' st'
    | Blocks _ => true
    end
  | _ :: _ => false
  end.

(** Two handles taken and given back, the second one first. *)
Definition get_get_post_post : list call :=
  [GetConn get_env_ok; GetConn get_env_ok;
   PostConn post_env_ok (Addr 2); PostConn post_env_ok (Addr 1)].

(** The pool with all eight handles lent: the semaphore is at 0. *)
Definition drained_pool : pool :=
  run (Open open_env_ok :: replicate DB_POOL_CONN_COUNT (GetConn get_env_ok))
      init_pool.

(** At second 1000 the mutex is kept by other threads until after second
    1030. *)
Definition get_env_mutex_kept : get_env :=
  mk_get_env 0 0 0 1000 (fun deadline => if deadline <=? 1030 then 110 else 0)
    0 0.

(** Every external call succeeds but the second read lock. *)
Definition get_env_rdlock_fails : get_env :=
  mk_get_env 0 0 0 1000 (fun _ => 0) 1 0.

(** The open pool with the pointer of slot 0 null. *)
Definition null_slot_pool : pool := set_conn 0 NULL open_pool.

(** The connections of the slots that are not busy, in index order. *)
Fixpoint free_conns (conns : list MYSQL_ptr) (busy : list Z)
    : list MYSQL_ptr :=
  match conns, busy with
  | c :: conns', b :: busy' =>
    if b =? 0 then c :: free_conns conns' busy' else free_conns conns' busy'
  | _, _ => []
  end.

Definition pool_free_conns (st : pool) : list MYSQL_ptr :=
  free_conns (mysql_conns st) (mysql_conns_busy st).

(** Every slot holds a connection. *)
Definition slots_filled (st : pool) : Prop :=
  forall i, (i < DB_POOL_CONN_COUNT)%nat -> conn_at st i <> NULL.

(** An open pool has every slot filled. *)
Definition open_filled (st : pool) : Prop :=
  is_open st <> 0 -> slots_filled st.

(** The pool with the handle of slot 0 lent, and the pool after the
    second of two [db_get_conn] calls (the first handle still lent). *)
Definition one_lent_pool : pool :=
  run [Open open_env_ok; GetConn get_env_ok] init_pool.

(** The open pool closed again. *)
Definition closed_pool : pool := state_of (db_close close_env_ok open_pool).

(** Whether a call is a [db_open]. *)
Definition is_Open (c : call) : bool :=
  match c with Open _ => true | _ => false end.

(** The semaphore and the busy flags are in step: the permits are not
    negative, permits and busy slots together do not exceed the size of
    the pool, and no slot is busy before the initialisation. *)
Definition gate_ok (st : pool) : Prop :=
  0 <= db_sem st /\
  db_sem st + busy_count st <= Z.of_nat DB_POOL_CONN_COUNT /\
  (is_inited st = 0 -> busy_count st = 0).

(** What every pool reached from the initial state satisfies. *)
Definition pool_inv (st : pool) : Prop :=
  pool_wf st /\ open_filled st /\ gate_ok st.

(** ** The example program *)

(** The functions of [example.c] that use the pool.  What they write to
    [stderr] is returned as the list of the lines written; the pause of
    [q] before its retry ([rand], [select]) changes nothing here. *)

(** [ER_LOCK_DEADLOCK] of [mysqld_error.h], a header of the MySQL client
    library. *)
Definition ER_LOCK_DEADLOCK : Z := 1213.

(** The string made of a line feed. *)
Definition newline : string := String (Ascii.ascii_of_nat 10) EmptyString.

(** [fprintf(stderr, "db: %s\n", m)] *)
Definition db_line (m : err_msg) : string :=
  "db: " +:+ err_text m +:+ newline.

(** [fprintf(stderr, "db query: %s; errno: %u\n", q, result_errno)] *)
Definition query_line (query : string) (result_errno : Z) : string :=
  "db query: " +:+ query +:+ "; errno: " +:+ pretty (Z.to_N result_errno)
  +:+ newline.

(** The outcomes of the external calls of one [q]: the two
    [mysql_query] calls with the [mysql_errno] that follows each, the
    [mysql_ping] of [db_ping], and the read lock of [db_error]. *)
Record q_env : Type := mk_q_env {
  qe_query_first : Z;
  qe_errno_first : Z;
  qe_query_retry : Z;
  qe_errno_retry : Z;
  qe_ping : Z;
  qe_rdlock : Z
}.

(** [q]: the value returned, the lines written, and the pool. *)
Definition q (e : q_env) (mysql_conn : MYSQL_ptr) (query : string)
    (st : pool) : Z * list string * pool :=
  let result := qe_query_first e in
  if negb (result =? 0) then
    let result_errno := qe_errno_first e in
    if result_errno =? ER_LOCK_DEADLOCK then
      let result := qe_query_retry e in
      if negb (result =? 0) then
        let result_errno := qe_errno_retry e in
        (result, [query_line query result_errno], st)
      else (result, [], st)
    else
      let out := [query_line query result_errno] in
      match db_ping (qe_ping e) mysql_conn st with
      | Returns v st =>
        if negb (v =? 0) then
          (result, out ++ [db_line (db_error (qe_rdlock e) st)], st)
        else (result, out, st)
      | Blocks st => (result, out, st)
      end
  else (result, [], st).

(** The outcomes of the external calls of one [simple_query_example]. *)
Record example_env : Type := mk_example_env {
  xe_get : get_env;
  xe_rdlock : Z;
  xe_q : q_env;
  xe_post : post_env
}.

Definition example_query : string :=
  "INSERT INTO `example` (name) VALUES ('example')".

Definition simple_query_example (e : example_env) (st : pool)
    : outcome (Z * list string) :=
  match db_get_conn (xe_get e) st with
  | Blocks st => Blocks st
  | Returns mysql_conn st =>
    if is_null mysql_conn then
      Returns (-1, [db_line (db_error (xe_rdlock e) st)]) st
    else
      let '(q_result, out, st) := q (xe_q e) mysql_conn example_query st in
      match db_post_conn (xe_post e) mysql_conn st with
      | Returns _ st => Returns (q_result, out) st
      | Blocks st => Blocks st
      end
  end.

(** [clean_up], the function registered with [atexit]; [rdlock] is the
    read lock of [db_is_closed]. *)
Definition clean_up (rdlock : Z) (e : close_env) (st : pool) : outcome unit :=
  match db_is_closed rdlock st with
  | Blocks st => Blocks st
  | Returns v st =>
    if v =? 0 then outcome_map (fun _ => tt) (db_close e st)
    else Returns tt st
  end.

(** A run of [simple_query_example] in which the query fails with a
    duplicate-key error (1062) and the ping of the connection is
    answered. *)
Definition example_env_query_fails : example_env :=
  mk_example_env get_env_ok 0 (mk_q_env 1 1062 0 0 0 0) post_env_ok.

(** * Properties *)

(** ** Reading the fields after an assignment *)

Lemma pool_wf_init : pool_wf init_pool.
Proof. split; reflexivity. Qed.

Lemma pool_wf_open : pool_wf open_pool.
Proof. split; reflexivity. Qed.

Lemma is_null_true (p : MYSQL_ptr) : is_null p = true <-> p = NULL.
Proof. destruct p; simpl; split; congruence. Qed.

Lemma is_null_false (p : MYSQL_ptr) : is_null p = false <-> p <> NULL.
Proof. destruct p; simpl; split; congruence. Qed.

Lemma conn_at_set_conn_eq st i p :
  (i < length (mysql_conns st))%nat -> conn_at (set_conn i p st) i = p.
Proof.
  intros Hi. unfold conn_at, set_conn; simpl.
  apply list_lookup_total_insert_eq. exact Hi.
Qed.

Lemma conn_at_set_conn_ne st i j p :
  i <> j -> conn_at (set_conn i p st) j = conn_at st j.
Proof.
  intros Hne. unfold conn_at, set_conn; simpl.
  apply list_lookup_total_insert_ne. exact Hne.
Qed.

Lemma busy_at_set_busy_eq st i v :
  (i < length (mysql_conns_busy st))%nat -> busy_at (set_busy i v st) i = v.
Proof.
  intros Hi. unfold busy_at, set_busy; simpl.
  apply list_lookup_total_insert_eq. exact Hi.
Qed.

Lemma busy_at_set_busy_ne st i j v :
  i <> j -> busy_at (set_busy i v st) j = busy_at st j.
Proof.
  intros Hne. unfold busy_at, set_busy; simpl.
  apply list_lookup_total_insert_ne. exact Hne.
Qed.

(** ** db_error *)

(** C7, as the code has it: [db_error] gives the sticky error when one is
    set; otherwise the not-thread-safe message when [is_thread_safe] is 0;
    otherwise the not-initialised message when [is_inited] is 0; otherwise
    the rw-lock message when the read lock is not obtained; otherwise the
    not-open message when [is_open] is 0; otherwise the unknown/no-error
    message. *)
Theorem db_error_precedence (rdlock : Z) (st : pool) :
  (forall m, err_last st = Some m -> db_error rdlock st = m) /\
  (err_last st = None -> is_thread_safe st = 0 ->
   db_error rdlock st = err_not_thread_safe) /\
  (err_last st = None -> is_thread_safe st <> 0 -> is_inited st = 0 ->
   db_error rdlock st = err_not_inited) /\
  (err_last st = None -> is_thread_safe st <> 0 -> is_inited st <> 0 ->
   rdlock <> 0 -> db_error rdlock st = err_rwlock) /\
  (err_last st = None -> is_thread_safe st <> 0 -> is_inited st <> 0 ->
   rdlock = 0 -> is_open st = 0 -> db_error rdlock st = err_not_open) /\
  (err_last st = None -> is_thread_safe st <> 0 -> is_inited st <> 0 ->
   rdlock = 0 -> is_open st <> 0 -> db_error rdlock st = err_unknown).
Proof.
  unfold db_error.
  repeat split; intros; repeat match goal with
  | H : err_last st = _ |- _ => rewrite H
  | H : _ = 0 |- _ => rewrite H
  | H : _ <> 0 |- _ => apply Z.eqb_neq in H; rewrite H
  end; reflexivity.
Qed.

(** The six cases of [db_error_precedence], each at a pool that takes
    it. *)
Lemma db_error_precedence_witness :
  db_error 0 (set_err_last err_connect init_pool) = err_connect /\
  db_error 0 init_pool = err_not_thread_safe /\
  db_error 0 (set_is_thread_safe 1 init_pool) = err_not_inited /\
  db_error 1 open_pool = err_rwlock /\
  db_error 0 (state_of (db_close close_env_ok open_pool)) = err_not_open /\
  db_error 0 open_pool = err_unknown.
Proof.
  split.
  { apply (db_error_precedence 0 (set_err_last err_connect init_pool)).
    reflexivity. }
  split.
  { apply (db_error_precedence 0 init_pool); reflexivity. }
  split.
  { apply (db_error_precedence 0 (set_is_thread_safe 1 init_pool));
      [reflexivity | discriminate | reflexivity]. }
  split.
  { apply (db_error_precedence 1 open_pool);
      [reflexivity | discriminate | discriminate | discriminate]. }
  split.
  { apply (db_error_precedence 0 (state_of (db_close close_env_ok open_pool)));
      [reflexivity | discriminate | discriminate | reflexivity | reflexivity]. }
  apply (db_error_precedence 0 open_pool);
    [reflexivity | discriminate | discriminate | reflexivity | discriminate].
Defined.

(** C7 as stated has no case for the read lock: on an open, initialised
    pool with no sticky error it gives the unknown/no-error message, but
    when [pthread_rwlock_rdlock] fails [db_error] gives the rw-lock
    message. *)
Lemma db_error_rwlock_counterexample :
  err_last open_pool = None /\ is_thread_safe open_pool = 1 /\
  is_inited open_pool = 1 /\ is_open open_pool = 1 /\
  db_error 1 open_pool = err_rwlock /\
  db_error 1 open_pool <> err_unknown.
Proof. repeat split; discriminate. Qed.

(** ** db_post_conn *)

(** C9: on an initialised pool, [db_post_conn] of the null pointer returns
    -1 with the invalid-input message, and leaves both arrays and the
    semaphore as they were. *)
Theorem db_post_conn_null (e : post_env) (st : pool) :
  is_inited st <> 0 ->
  exists st',
    db_post_conn e NULL st = Returns (-1) st' /\
    err_last st' = Some err_input /\
    db_error 0 st' = err_input /\
    mysql_conns st' = mysql_conns st /\
    mysql_conns_busy st' = mysql_conns_busy st /\
    db_sem st' = db_sem st.
Proof.
  intros Hinit. apply Z.eqb_neq in Hinit.
  exists (set_err_last err_input st).
  unfold db_post_conn. rewrite Hinit. simpl.
  repeat split; reflexivity.
Qed.

Lemma db_post_conn_null_witness :
  exists st',
    db_post_conn post_env_ok NULL open_pool = Returns (-1) st' /\
    err_last st' = Some err_input /\
    db_error 0 st' = err_input /\
    mysql_conns st' = mysql_conns open_pool /\
    mysql_conns_busy st' = mysql_conns_busy open_pool /\
    db_sem st' = db_sem open_pool.
Proof. apply (db_post_conn_null post_env_ok open_pool). discriminate. Defined.

(** The scan of [db_post_conn] stops at the first busy slot, whatever
    handle is returned. *)
Lemma post_scan_first_busy (h : MYSQL_ptr) (st : pool) (i : nat) :
  forall (fuel k : nat),
    (k <= i)%nat -> (i < k + fuel)%nat ->
    busy_at st i <> 0 ->
    (forall j, (k <= j)%nat -> (j < i)%nat -> busy_at st j = 0) ->
    post_scan h st k fuel = (set_busy i 0 (set_conn i h st), 1).
Proof.
  induction fuel as [|fuel IH]; intros k Hk Hi Hbusy Hfree.
  - lia.
  - simpl. destruct (decide (k = i)) as [->|Hne].
    + apply Z.eqb_neq in Hbusy. rewrite Hbusy. reflexivity.
    + rewrite (Hfree k) by lia. simpl. apply IH; [lia | lia | exact Hbusy |].
      intros j Hj1 Hj2. apply Hfree; lia.
Qed.

Lemma post_scan_none_busy (h : MYSQL_ptr) (st : pool) :
  forall (fuel k : nat),
    (forall j, (k <= j)%nat -> (j < k + fuel)%nat -> busy_at st j = 0) ->
    post_scan h st k fuel = (st, 0).
Proof.
  induction fuel as [|fuel IH]; intros k Hfree.
  - reflexivity.
  - simpl. rewrite (Hfree k) by lia. simpl. apply IH.
    intros j Hj1 Hj2. apply Hfree; lia.
Qed.

(** C4, as the code has it: [db_post_conn] of a non-null handle on an
    initialised pool marks free the first busy slot in index order and
    stores the handle in it, whichever slot lent the handle; no other cell
    of the two arrays changes. *)
Theorem db_post_conn_first_busy (e : post_env) (h : MYSQL_ptr) (st : pool)
    (i : nat) :
  is_inited st <> 0 -> h <> NULL ->
  pe_mutex_lock e = 0 -> db_mutex st = false ->
  (i < DB_POOL_CONN_COUNT)%nat ->
  busy_at st i <> 0 ->
  (forall j, (j < i)%nat -> busy_at st j = 0) ->
  exists v st',
    db_post_conn e h st = Returns v st' /\
    mysql_conns_busy st' = <[i:=0]> (mysql_conns_busy st) /\
    mysql_conns st' = <[i:=h]> (mysql_conns st).
Proof.
  intros Hinit Hh Hlock Hfree Hi Hbusy Hfirst.
  apply Z.eqb_neq in Hinit. apply is_null_false in Hh.
  unfold db_post_conn, pthread_mutex_lock.
  rewrite Hinit, Hh, Hlock, Hfree. cbn -[post_scan].
  rewrite (post_scan_first_busy h _ i); [| lia | simpl; lia | exact Hbusy |].
  - cbn -[post_scan]. unfold sem_post.
    destruct (negb (pe_sem_post e =? 0)) eqn:Hpost; simpl; rewrite ?Hpost;
      eexists _, _; (split; [reflexivity | split; reflexivity]).
  - intros j _ Hj. apply Hfirst. exact Hj.
Qed.

Lemma db_post_conn_first_busy_witness :
  exists v st',
    db_post_conn post_env_ok (Addr 2) two_lent_pool = Returns v st' /\
    mysql_conns_busy st' = <[0%nat:=0]> (mysql_conns_busy two_lent_pool) /\
    mysql_conns st' = <[0%nat:=Addr 2]> (mysql_conns two_lent_pool).
Proof.
  apply (db_post_conn_first_busy post_env_ok (Addr 2) two_lent_pool 0);
    try discriminate; try reflexivity.
  - unfold DB_POOL_CONN_COUNT. lia.
  - intros j Hj. lia.
Defined.

(** C4 as stated fails: with the handles of slots 0 and 1 lent, returning
    the handle of slot 1 frees slot 0 and leaves slot 1, which lent it,
    busy. *)
Lemma db_post_conn_handle_counterexample :
  conn_at two_lent_pool 0 = Addr 1 /\
  conn_at two_lent_pool 1 = Addr 2 /\
  busy_at two_lent_pool 0 = 1 /\
  busy_at two_lent_pool 1 = 1 /\
  exists st',
    db_post_conn post_env_ok (Addr 2) two_lent_pool = Returns 0 st' /\
    busy_at st' 1 = 1 /\
    busy_at st' 0 = 0 /\
    conn_at st' 0 = Addr 2.
Proof.
  repeat (split; [reflexivity |]).
  eexists. repeat (split; [reflexivity |]). reflexivity.
Qed.

(** ** db_open *)

(** The roll-back loop writes the connection array and the log of closed
    connections, and nothing else. *)
Lemma open_rollback_frame {A : Type} (f : pool -> A) :
  (forall l st, f (set_mysql_conns l st) = f st) ->
  (forall l st, f (set_mysql_closed l st) = f st) ->
  forall i st, f (open_rollback st i) = f st.
Proof.
  intros Hconns Hclosed.
  assert (Hstep : forall i st,
    f (if is_null (conn_at st i) then st
       else set_conn i NULL (mysql_close (conn_at st i) st)) = f st).
  { intros i st. destruct (is_null (conn_at st i)); [reflexivity|].
    unfold set_conn, mysql_close. rewrite Hconns, Hclosed. reflexivity. }
  induction i as [|i IH]; intros st; simpl.
  - apply Hstep.
  - rewrite IH. apply Hstep.
Qed.

Lemma open_rollback_length (i : nat) (st : pool) :
  length (mysql_conns (open_rollback st i)) = length (mysql_conns st).
Proof.
  revert st. induction i as [|i IH]; intros st; simpl;
    [|rewrite IH]; destruct (is_null (conn_at st _)); simpl;
    rewrite ?length_insert; reflexivity.
Qed.

(** After the roll-back from slot [i], slots [0..i] are empty, every
    connection they held has been closed, and the slots above [i] are as
    they were. *)
Lemma open_rollback_spec (i : nat) :
  forall st, (i < length (mysql_conns st))%nat ->
    (forall j, (j <= i)%nat -> conn_at (open_rollback st i) j = NULL) /\
    (forall j, (i < j)%nat -> conn_at (open_rollback st i) j = conn_at st j) /\
    (forall j, (j <= i)%nat -> conn_at st j <> NULL ->
               conn_at st j ∈ mysql_closed (open_rollback st i)) /\
    (forall p, p ∈ mysql_closed st -> p ∈ mysql_closed (open_rollback st i)).
Proof.
  induction i as [|i IH]; intros st Hlen.
  - simpl. destruct (is_null (conn_at st 0)) eqn:Hnull.
    + apply is_null_true in Hnull.
      repeat split; try done.
      * intros j Hj. replace j with 0%nat by lia. exact Hnull.
      * intros j Hj Hnn. replace j with 0%nat in Hnn by lia. congruence.
    + repeat split.
      * intros j Hj. replace j with 0%nat by lia.
        apply conn_at_set_conn_eq. exact Hlen.
      * intros j Hj. rewrite conn_at_set_conn_ne by lia. reflexivity.
      * intros j Hj _. replace j with 0%nat by lia. simpl. left.
      * intros p Hp. simpl. right. exact Hp.
  - simpl.
    set (st1 := if is_null (conn_at st (S i)) then st
                else set_conn (S i) NULL (mysql_close (conn_at st (S i)) st)).
    assert (Hlen1 : length (mysql_conns st1) = length (mysql_conns st)).
    { subst st1. destruct (is_null _); simpl; rewrite ?length_insert; done. }
    assert (Htop : conn_at st1 (S i) = NULL).
    { subst st1. destruct (is_null (conn_at st (S i))) eqn:Hnull.
      - apply is_null_true. exact Hnull.
      - apply conn_at_set_conn_eq. simpl. exact Hlen. }
    assert (Hlow : forall j, j <> S i -> conn_at st1 j = conn_at st j).
    { intros j Hj. subst st1. destruct (is_null _); [reflexivity|].
      rewrite conn_at_set_conn_ne by lia. reflexivity. }
    assert (Hlog : forall p, p ∈ mysql_closed st -> p ∈ mysql_closed st1).
    { intros p Hp. subst st1. destruct (is_null _); [exact Hp|].
      simpl. right. exact Hp. }
    assert (Hlogtop : conn_at st (S i) <> NULL ->
                      conn_at st (S i) ∈ mysql_closed st1).
    { intros Hnn. subst st1. apply is_null_false in Hnn. rewrite Hnn.
      simpl. left. }
    destruct (IH st1) as (Hclear & Hkeep & Hclosed & Hmono); [lia|].
    repeat split.
    + intros j Hj. destruct (decide (j = S i)) as [->|Hne].
      * rewrite Hkeep by lia. exact Htop.
      * apply Hclear. lia.
    + intros j Hj. rewrite Hkeep by lia. apply Hlow. lia.
    + intros j Hj Hnn. destruct (decide (j = S i)) as [->|Hne].
      * apply Hmono, Hlogtop, Hnn.
      * rewrite <- (Hlow j Hne). apply Hclosed; [lia|].
        rewrite (Hlow j Hne). exact Hnn.
    + intros p Hp. apply Hmono, Hlog, Hp.
Qed.

(** Whether it returns or goes on, the filling loop writes the connection
    array, the log of closed connections, [err_last] and the mutex, and
    nothing else. *)
Lemma open_fill_frame {A : Type} (f : pool -> A) (e : open_env) :
  (forall l st, f (set_mysql_conns l st) = f st) ->
  (forall l st, f (set_mysql_closed l st) = f st) ->
  (forall m st, f (set_err_last m st) = f st) ->
  (forall b st, f (set_db_mutex b st) = f st) ->
  forall fuel i st st',
    (open_fill e st i fuel = inl st' \/ open_fill e st i fuel = inr st') ->
    f st' = f st.
Proof.
  intros Hconns Hclosed Herr Hmutex.
  induction fuel as [|fuel IH]; intros i st st' Hres; simpl in Hres.
  - destruct Hres as [Hres|Hres]; congruence.
  - destruct (is_null (conn_at st i)).
    + destruct (attempt_failed _ _).
      * destruct Hres as [Hres|Hres]; [|discriminate].
        injection Hres as <-.
        unfold pthread_mutex_unlock. rewrite Herr, Hmutex.
        rewrite (open_rollback_frame f Hconns Hclosed).
        apply Hconns.
      * rewrite (IH _ _ _ Hres). apply Hconns.
    + destruct (negb (oe_ping e i =? 0)).
      * destruct Hres as [Hres|Hres]; [|discriminate].
        injection Hres as <-.
        unfold pthread_mutex_unlock. rewrite Herr, Hmutex. reflexivity.
      * apply (IH _ _ _ Hres).
Qed.

(** The initialisation block writes [is_thread_safe], [err_last], the
    mutex, the semaphore and [is_inited], and nothing else. *)
Lemma open_init_frame {A : Type} (f : pool -> A) (e : open_env) :
  (forall v st, f (set_is_thread_safe v st) = f st) ->
  (forall m st, f (set_err_last m st) = f st) ->
  (forall b st, f (set_db_mutex b st) = f st) ->
  (forall n st, f (set_db_sem n st) = f st) ->
  (forall v st, f (set_is_inited v st) = f st) ->
  forall st st',
    (open_init e st = inl st' \/ open_init e st = inr st') -> f st' = f st.
Proof.
  intros Hts Herr Hmutex Hsem Hinit st st' Hres. unfold open_init in Hres.
  unfold pthread_mutex_destroy, pthread_rwlock_destroy in Hres.
  repeat match type of Hres with
  | context [if ?c then _ else _] => destruct c
  end;
  destruct Hres as [Hres|Hres]; try discriminate;
    injection Hres as <-;
    rewrite ?Hinit, ?Hsem, ?Herr, ?Hmutex, ?Hts; reflexivity.
Qed.

Lemma open_init_succeeds (e : open_env) (st : pool) :
  init_succeeds e st ->
  (is_inited st <> 0 -> db_mutex st = false) ->
  exists st0, open_init e st = inr st0 /\ db_mutex st0 = false.
Proof.
  intros Hok Hmutex. unfold open_init.
  destruct (is_inited st =? 0) eqn:Hinit.
  - apply Z.eqb_eq in Hinit.
    destruct Hok as [Hok|(Hts & Hlib & Hmx & Hrw & Hsem)]; [congruence|].
    apply Z.eqb_neq in Hts. rewrite Hts, Hlib, Hmx, Hrw, Hsem. simpl.
    eexists. split; reflexivity.
  - apply Z.eqb_neq in Hinit. exists st. split; [reflexivity | auto].
Qed.

(** What the test after [mysql_init] says. *)
Lemma attempt_failed_false (p : MYSQL_ptr) (a : conn_attempt) :
  attempt_failed p a = false <->
  p <> NULL /\ ca_options a = 0 /\ ca_real_connect a <> NULL /\
  ca_autocommit a = 0.
Proof.
  unfold attempt_failed. rewrite !orb_false_iff, !negb_false_iff.
  rewrite !is_null_false, !Z.eqb_eq. tauto.
Qed.

(** The filling loop reaches slot [i] when the slots before it are empty
    and get their connections, and returns from there when the attempt for
    slot [i] fails: the roll-back starts from a pool [st_i] whose slots
    below [i] hold the connections just made. *)
Lemma open_fill_fails (e : open_env) (i : nat) :
  forall (fuel k : nat) (st : pool),
    (k <= i)%nat -> (i < k + fuel)%nat ->
    (i < length (mysql_conns st))%nat ->
    (forall j, (k <= j)%nat -> (j < i)%nat ->
       conn_at st j = NULL /\
       attempt_failed (ca_init (oe_connect e j)) (oe_connect e j) = false) ->
    conn_at st i = NULL ->
    attempt_failed (ca_init (oe_connect e i)) (oe_connect e i) = true ->
    exists st_i,
      open_fill e st k fuel =
        inl (set_err_last err_connect
               (pthread_mutex_unlock (open_rollback st_i i))) /\
      length (mysql_conns st_i) = length (mysql_conns st) /\
      mysql_closed st_i = mysql_closed st /\
      (forall j, (j < k)%nat -> conn_at st_i j = conn_at st j) /\
      (forall j, (k <= j)%nat -> (j < i)%nat ->
         conn_at st_i j = ca_init (oe_connect e j)).
Proof.
  induction fuel as [|fuel IH]; intros k st Hk Hi Hlen Hbefore Hnull Hfail.
  - lia.
  - simpl. destruct (decide (k = i)) as [->|Hne].
    + rewrite Hnull. simpl.
      rewrite conn_at_set_conn_eq by exact Hlen. rewrite Hfail.
      eexists. split; [reflexivity|]. simpl. rewrite length_insert.
      repeat split.
      * intros j Hj. rewrite conn_at_set_conn_ne by lia. reflexivity.
      * intros j Hj1 Hj2. lia.
    + destruct (Hbefore k) as [Hnk Hok]; [lia | lia |].
      rewrite Hnk. simpl. rewrite conn_at_set_conn_eq by lia. rewrite Hok.
      destruct (IH (S k) (set_conn k (ca_init (oe_connect e k)) st))
        as (st_i & Hfill & Hlen_i & Hclosed_i & Hlow_i & Hconns_i).
      * lia.
      * lia.
      * simpl. rewrite length_insert. exact Hlen.
      * intros j Hj1 Hj2. rewrite conn_at_set_conn_ne by lia.
        apply Hbefore; lia.
      * rewrite conn_at_set_conn_ne by lia. exact Hnull.
      * exact Hfail.
      * exists st_i. split; [exact Hfill|].
        simpl in Hlen_i. rewrite length_insert in Hlen_i.
        split; [exact Hlen_i|]. split; [exact Hclosed_i|]. split.
        -- intros j Hj. rewrite Hlow_i by lia.
           rewrite conn_at_set_conn_ne by lia. reflexivity.
        -- intros j Hj1 Hj2. destruct (decide (j = k)) as [->|Hjk].
           ++ rewrite Hlow_i by lia. apply conn_at_set_conn_eq. lia.
           ++ apply Hconns_i; lia.
Qed.

(** C5: when [db_open] gets as far as the filling loop, slots [0..i-1] are
    empty and are filled in this pass, and the attempt for the empty slot
    [i] fails, then [db_open] returns -1, the connections made for slots
    [0..i-1] have been closed and slots [0..i] are empty again, [is_open]
    and [is_closed] are as they were before the call, and [db_error]
    reports the connect failure. *)
Theorem db_open_connect_failure (e : open_env) (st : pool) (i : nat) :
  pool_wf st ->
  init_succeeds e st ->
  (is_inited st <> 0 -> db_mutex st = false) ->
  oe_mutex_lock e = 0 ->
  (i < DB_POOL_CONN_COUNT)%nat ->
  (forall j, (j < i)%nat ->
     conn_at st j = NULL /\
     attempt_failed (ca_init (oe_connect e j)) (oe_connect e j) = false) ->
  conn_at st i = NULL ->
  attempt_failed (ca_init (oe_connect e i)) (oe_connect e i) = true ->
  exists st',
    db_open e st = Returns (-1) st' /\
    (forall j, (j < i)%nat ->
       ca_init (oe_connect e j) <> NULL /\
       ca_init (oe_connect e j) ∈ mysql_closed st') /\
    (forall j, (j <= i)%nat -> conn_at st' j = NULL) /\
    is_open st' = is_open st /\
    is_closed st' = is_closed st /\
    (forall rdlock, db_error rdlock st' = err_connect).
Proof.
  intros [Hlen _] Hinit Hmutex Hlock Hi Hbefore Hnull Hfail.
  destruct (open_init_succeeds e st Hinit Hmutex) as (st0 & Hst0 & Hfree).
  assert (Hconns0 : mysql_conns st0 = mysql_conns st).
  { apply (open_init_frame mysql_conns e); auto. }
  assert (Hopen0 : is_open st0 = is_open st).
  { apply (open_init_frame is_open e); auto. }
  assert (Hclosed0 : is_closed st0 = is_closed st).
  { apply (open_init_frame is_closed e); auto. }
  set (st1 := set_db_mutex true st0).
  assert (Hat : forall j, conn_at st1 j = conn_at st j).
  { intros j. unfold conn_at. simpl. rewrite Hconns0. reflexivity. }
  destruct (open_fill_fails e i DB_POOL_CONN_COUNT 0 st1)
    as (st_i & Hfill & Hlen_i & _ & _ & Hconns_i).
  { lia. }
  { lia. }
  { simpl. rewrite Hconns0, Hlen. exact Hi. }
  { intros j _ Hj. rewrite Hat. apply Hbefore. exact Hj. }
  { rewrite Hat. exact Hnull. }
  { exact Hfail. }
  assert (Hlen_i' : (i < length (mysql_conns st_i))%nat).
  { rewrite Hlen_i. simpl. rewrite Hconns0, Hlen. exact Hi. }
  destruct (open_rollback_spec i st_i Hlen_i') as (Hclear & _ & Hlog & _).
  eexists. split.
  { unfold db_open, pthread_mutex_lock. rewrite Hst0, Hlock, Hfree.
    cbn -[open_fill]. fold st1. rewrite Hfill. reflexivity. }
  split.
  { intros j Hj. destruct (Hbefore j Hj) as [_ Hok].
    apply attempt_failed_false in Hok. destruct Hok as [Hnn _].
    split; [exact Hnn|].
    simpl. rewrite <- (Hconns_i j) by lia. apply Hlog; [lia|].
    rewrite Hconns_i by lia. exact Hnn. }
  split.
  { intros j Hj. apply (Hclear j Hj). }
  assert (Hframe : forall {A} (f : pool -> A),
    (forall l s, f (set_mysql_conns l s) = f s) ->
    (forall l s, f (set_mysql_closed l s) = f s) ->
    (forall m s, f (set_err_last m s) = f s) ->
    (forall b s, f (set_db_mutex b s) = f s) ->
    f (set_err_last err_connect (pthread_mutex_unlock (open_rollback st_i i)))
    = f st0).
  { intros A f H1 H2 H3 H4.
    rewrite (open_fill_frame f e H1 H2 H3 H4 _ _ _ _ (or_introl Hfill)).
    apply H4. }
  split; [rewrite <- Hopen0; apply (Hframe _ is_open); auto|].
  split; [rewrite <- Hclosed0; apply (Hframe _ is_closed); auto|].
  intros rdlock. reflexivity.
Qed.

Lemma db_open_connect_failure_witness :
  exists st',
    db_open open_env_third_fails init_pool = Returns (-1) st' /\
    (forall j, (j < 2)%nat ->
       ca_init (oe_connect open_env_third_fails j) <> NULL /\
       ca_init (oe_connect open_env_third_fails j) ∈ mysql_closed st') /\
    (forall j, (j <= 2)%nat -> conn_at st' j = NULL) /\
    is_open st' = is_open init_pool /\
    is_closed st' = is_closed init_pool /\
    (forall rdlock, db_error rdlock st' = err_connect).
Proof.
  apply (db_open_connect_failure open_env_third_fails init_pool 2).
  - exact pool_wf_init.
  - right. repeat split; discriminate.
  - intros _. reflexivity.
  - reflexivity.
  - unfold DB_POOL_CONN_COUNT. lia.
  - intros j Hj. destruct j as [|[|j]]; [split; reflexivity .. | lia].
  - reflexivity.
  - reflexivity.
Defined.

(** The scenario evaluated: the connections at addresses 1, 2 and 3 are
    closed, every slot is empty, and the pool is still closed. *)
Example db_open_third_fails_run :
  db_open open_env_third_fails init_pool =
    Returns (-1)
      {| err_last := Some err_connect;
         db_mutex := false;
         db_sem := 8;
         mysql_conns := replicate DB_POOL_CONN_COUNT NULL;
         mysql_conns_busy := replicate DB_POOL_CONN_COUNT 0;
         is_thread_safe := 1;
         is_inited := 1;
         is_open := 0;
         is_closed := 1;
         mysql_closed := [Addr 1; Addr 2; Addr 3] |}.
Proof. reflexivity. Qed.

(** ** db_close *)

(** A pass of the drain loop writes the mutex, the semaphore and
    [err_last], and nothing else. *)
Lemma close_pass_frame {A : Type} (f : pool -> A) (e : close_env) :
  (forall b st, f (set_db_mutex b st) = f st) ->
  (forall n st, f (set_db_sem n st) = f st) ->
  (forall m st, f (set_err_last m st) = f st) ->
  forall fuel p ready st i,
    f (pass_state (close_pass e p ready st i fuel)) = f st.
Proof.
  intros Hmutex Hsem Herr.
  induction fuel as [|fuel IH]; intros p ready st i; simpl.
  - reflexivity.
  - unfold pthread_mutex_lock, pthread_mutex_unlock, sem_wait.
    destruct (negb (ce_mutex_lock e p i =? 0)); simpl; [apply Herr|].
    destruct (db_mutex st); simpl; [reflexivity|].
    destruct (busy_at _ i =? 1).
    + destruct (negb (ce_sem_wait e p =? 0)); simpl.
      * rewrite Herr, !Hmutex. reflexivity.
      * destruct (0 <? db_sem st); simpl; rewrite ?Hsem, !Hmutex; reflexivity.
    + rewrite IH, !Hmutex. reflexivity.
Qed.

Lemma close_drain_frame {A : Type} (f : pool -> A) (e : close_env) :
  (forall b st, f (set_db_mutex b st) = f st) ->
  (forall n st, f (set_db_sem n st) = f st) ->
  (forall m st, f (set_err_last m st) = f st) ->
  forall fuel p st o,
    close_drain e st p fuel = Some o -> f (state_of o) = f st.
Proof.
  intros Hmutex Hsem Herr.
  induction fuel as [|fuel IH]; intros p st o Hres; cbn [close_drain] in Hres.
  - discriminate.
  - pose proof (close_pass_frame f e Hmutex Hsem Herr
                  DB_POOL_CONN_COUNT p 0 st 0%nat) as Hpass.
    destruct (close_pass e p 0 st 0 DB_POOL_CONN_COUNT) as [r st'|v st'|st'];
      simpl in Hpass.
    + destruct (r =? 0).
      * rewrite (IH _ _ _ Hres). exact Hpass.
      * injection Hres as <-. exact Hpass.
    + injection Hres as <-. exact Hpass.
    + injection Hres as <-. exact Hpass.
Qed.

(** [db_close] writes [err_last], the mutex, the semaphore and the two
    state flags, and nothing else: in particular it neither closes a
    connection nor clears a slot. *)
Lemma db_close_frame {A : Type} (f : pool -> A) (e : close_env) (st : pool) :
  (forall b st, f (set_db_mutex b st) = f st) ->
  (forall n st, f (set_db_sem n st) = f st) ->
  (forall m st, f (set_err_last m st) = f st) ->
  (forall v st, f (set_is_open v st) = f st) ->
  (forall v st, f (set_is_closed v st) = f st) ->
  f (state_of (db_close e st)) = f st.
Proof.
  intros Hmutex Hsem Herr Hopen Hclosed. unfold db_close.
  destruct (is_inited st =? 0); [apply Herr|].
  destruct (negb (ce_wrlock e =? 0)); [apply Herr|].
  destruct (negb (is_closed st =? 0)); [reflexivity|].
  unfold pthread_rwlock_unlock.
  destruct (close_drain e _ 0 _) as [o|] eqn:Hdrain.
  - rewrite (close_drain_frame f e Hmutex Hsem Herr _ _ _ _ Hdrain).
    rewrite Hclosed, Hopen. reflexivity.
  - simpl. rewrite Hclosed, Hopen. reflexivity.
Qed.

(** A pass that leaves [ready] at 0 has taken one unit from the
    semaphore. *)
Lemma close_pass_not_ready (e : close_env) :
  forall fuel p ready st i st',
    (fuel <> 0%nat \/ ready <> 0) ->
    close_pass e p ready st i fuel = PassEnd 0 st' ->
    0 < db_sem st /\ db_sem st' = db_sem st - 1.
Proof.
  induction fuel as [|fuel IH]; intros p ready st i st' Hne Hres;
    simpl in Hres.
  - injection Hres as Hr _. destruct Hne as [Hne|Hne]; congruence.
  - unfold pthread_mutex_lock, pthread_mutex_unlock, sem_wait in Hres.
    destruct (negb (ce_mutex_lock e p i =? 0)); [discriminate|].
    destruct (db_mutex st); [discriminate|].
    destruct (busy_at _ i =? 1).
    + destruct (negb (ce_sem_wait e p =? 0)); [discriminate|].
      simpl in Hres. destruct (0 <? db_sem st) eqn:Hpos; [|discriminate].
      injection Hres as <-. simpl. split; [|reflexivity].
      apply Z.ltb_lt. exact Hpos.
    + apply IH in Hres; [|right; discriminate]. exact Hres.
Qed.

(** The drain loop ends within one pass more than the value of the
    semaphore: [db_close] never runs out of passes. *)
Lemma close_drain_enough (e : close_env) :
  forall fuel st p,
    (Z.to_nat (db_sem st) < fuel)%nat ->
    exists o, close_drain e st p fuel = Some o.
Proof.
  induction fuel as [|fuel IH]; intros st p Hfuel.
  - lia.
  - cbn [close_drain].
    destruct (close_pass e p 0 st 0 DB_POOL_CONN_COUNT)
      as [r st'|v st'|st'] eqn:Hpass; [|eexists; reflexivity ..].
    destruct (r =? 0) eqn:Hr; [|eexists; reflexivity].
    apply Z.eqb_eq in Hr. subst r.
    apply close_pass_not_ready in Hpass; [|left; discriminate].
    apply IH. lia.
Qed.

Lemma db_close_total (e : close_env) (st : pool) :
  exists o,
    close_drain e (set_is_closed 1 (set_is_open 0 st)) 0
      (S (Z.to_nat (db_sem st))) = Some o.
Proof. apply close_drain_enough. simpl. lia. Qed.

(** ** The scans of db_get_conn and db_post_conn *)

(** The scan of [db_get_conn] writes the busy flags and nothing else. *)
Lemma get_scan_frame {A : Type} (f : pool -> A) :
  (forall l st, f (set_mysql_conns_busy l st) = f st) ->
  forall fuel i st, f (fst (get_scan st i fuel)) = f st.
Proof.
  intros Hbusy. induction fuel as [|fuel IH]; intros i st; simpl.
  - reflexivity.
  - destruct (busy_at st i =? 0); simpl; [apply Hbusy | apply IH].
Qed.

Lemma get_scan_length (fuel i : nat) (st : pool) :
  length (mysql_conns_busy (fst (get_scan st i fuel))) =
  length (mysql_conns_busy st).
Proof.
  revert i. induction fuel as [|fuel IH]; intros i; simpl.
  - reflexivity.
  - destruct (busy_at st i =? 0); simpl; [apply length_insert | apply IH].
Qed.

(** The scan takes the first slot whose flag is 0: it sets the flag and
    reads the pointer of that slot, null or not. *)
Lemma get_scan_first_free (st : pool) (i : nat) :
  forall (fuel k : nat),
    (k <= i)%nat -> (i < k + fuel)%nat ->
    busy_at st i = 0 ->
    (forall j, (k <= j)%nat -> (j < i)%nat -> busy_at st j <> 0) ->
    get_scan st k fuel = (set_busy i 1 st, conn_at st i).
Proof.
  induction fuel as [|fuel IH]; intros k Hk Hi Hfree Hbusy.
  - lia.
  - simpl. destruct (decide (k = i)) as [->|Hne].
    + rewrite Hfree. reflexivity.
    + assert (Hk0 : busy_at st k <> 0) by (apply Hbusy; lia).
      apply Z.eqb_neq in Hk0. rewrite Hk0.
      apply IH; [lia | lia | exact Hfree |].
      intros j Hj1 Hj2. apply Hbusy; lia.
Qed.

Lemma get_scan_none_free (st : pool) :
  forall (fuel k : nat),
    (forall j, (k <= j)%nat -> (j < k + fuel)%nat -> busy_at st j <> 0) ->
    get_scan st k fuel = (st, NULL).
Proof.
  induction fuel as [|fuel IH]; intros k Hbusy.
  - reflexivity.
  - simpl. assert (Hk0 : busy_at st k <> 0) by (apply Hbusy; lia).
    apply Z.eqb_neq in Hk0. rewrite Hk0. apply IH.
    intros j Hj1 Hj2. apply Hbusy; lia.
Qed.

(** The scan of [db_post_conn] writes the two arrays and nothing else,
    and keeps their lengths. *)
Lemma post_scan_frame {A : Type} (f : pool -> A) (h : MYSQL_ptr) :
  (forall l st, f (set_mysql_conns l st) = f st) ->
  (forall l st, f (set_mysql_conns_busy l st) = f st) ->
  forall fuel i st, f (fst (post_scan h st i fuel)) = f st.
Proof.
  intros Hconns Hbusy. induction fuel as [|fuel IH]; intros i st; simpl.
  - reflexivity.
  - destruct (negb (busy_at st i =? 0)); simpl; [|apply IH].
    unfold set_busy, set_conn. rewrite Hbusy, Hconns. reflexivity.
Qed.

Lemma post_scan_length (h : MYSQL_ptr) (fuel i : nat) (st : pool) :
  length (mysql_conns (fst (post_scan h st i fuel))) =
    length (mysql_conns st) /\
  length (mysql_conns_busy (fst (post_scan h st i fuel))) =
    length (mysql_conns_busy st).
Proof.
  revert i. induction fuel as [|fuel IH]; intros i; simpl.
  - split; reflexivity.
  - destruct (negb (busy_at st i =? 0)); simpl; [|apply IH].
    rewrite !length_insert. split; reflexivity.
Qed.

(** ** What each call leaves untouched *)

(** [db_get_conn] writes [err_last], the mutex, the semaphore and the busy
    flags, and nothing else. *)
Lemma db_get_conn_frame {A : Type} (f : pool -> A) (e : get_env) (st : pool) :
  (forall m st, f (set_err_last m st) = f st) ->
  (forall b st, f (set_db_mutex b st) = f st) ->
  (forall n st, f (set_db_sem n st) = f st) ->
  (forall l st, f (set_mysql_conns_busy l st) = f st) ->
  f (state_of (db_get_conn e st)) = f st.
Proof.
  intros Herr Hmutex Hsem Hbusy.
  assert (Hpost : forall rc s, f (sem_post_ignored rc s) = f s).
  { intros rc s. unfold sem_post_ignored, sem_post.
    destruct (negb (rc =? 0)); simpl; [reflexivity | apply Hsem]. }
  unfold db_get_conn, sem_wait, pthread_mutex_timedlock,
    pthread_mutex_unlock, pthread_rwlock_unlock.
  destruct (is_inited st =? 0); [apply Herr|].
  destruct (negb (ge_rdlock_first e =? 0)); [apply Herr|].
  destruct (is_open st =? 0) eqn:Hopen; [apply Herr|].
  destruct (negb (ge_sem_wait e =? 0)); [apply Herr|].
  destruct (0 <? db_sem st); [|reflexivity].
  destruct (negb (ge_clock_gettime e =? 0)).
  { simpl. rewrite Hpost, Herr. apply Hsem. }
  destruct (negb (ge_mutex_timedlock e _ =? 0)).
  { simpl. rewrite Hpost, Herr. apply Hsem. }
  cbn [db_mutex set_db_sem].
  destruct (db_mutex st).
  { simpl. rewrite Hpost, Herr. apply Hsem. }
  destruct (negb (ge_rdlock_second e =? 0)).
  { simpl. rewrite Herr, Hmutex. apply Hsem. }
  cbn [is_open set_db_mutex set_db_sem]. rewrite Hopen.
  pose proof (get_scan_frame f Hbusy DB_POOL_CONN_COUNT 0
                (set_db_mutex true (set_db_sem (db_sem st - 1) st))) as Hscan.
  destruct (get_scan _ 0 DB_POOL_CONN_COUNT) as [st' p]. simpl in Hscan.
  destruct (is_null p); simpl.
  - rewrite Hpost, Herr, Hmutex, Hscan, Hmutex. apply Hsem.
  - rewrite Hmutex, Hscan, Hmutex. apply Hsem.
Qed.

(** [db_post_conn] writes [err_last], the mutex, the semaphore and the two
    arrays, and nothing else. *)
Lemma db_post_conn_frame {A : Type} (f : pool -> A) (e : post_env)
    (h : MYSQL_ptr) (st : pool) :
  (forall m st, f (set_err_last m st) = f st) ->
  (forall b st, f (set_db_mutex b st) = f st) ->
  (forall n st, f (set_db_sem n st) = f st) ->
  (forall l st, f (set_mysql_conns l st) = f st) ->
  (forall l st, f (set_mysql_conns_busy l st) = f st) ->
  f (state_of (db_post_conn e h st)) = f st.
Proof.
  intros Herr Hmutex Hsem Hconns Hbusy.
  unfold db_post_conn, pthread_mutex_lock, pthread_mutex_unlock, sem_post.
  destruct (is_inited st =? 0); [apply Herr|].
  destruct (is_null h); [apply Herr|].
  destruct (negb (pe_mutex_lock e =? 0)); [apply Herr|].
  destruct (db_mutex st); [reflexivity|].
  pose proof (post_scan_frame f h Hconns Hbusy DB_POOL_CONN_COUNT 0
                (set_db_mutex true st)) as Hscan.
  destruct (post_scan h _ 0 DB_POOL_CONN_COUNT) as [st' found].
  simpl in Hscan.
  destruct (found =? 0); simpl.
  - rewrite Herr, Hmutex, Hscan. apply Hmutex.
  - destruct (negb (pe_sem_post e =? 0)) eqn:Hrc; simpl; rewrite ?Hrc; simpl;
      rewrite ?Herr, ?Hsem, Hmutex, Hscan; apply Hmutex.
Qed.

(** [db_open] leaves [is_open] and [is_closed] as they were, or sets them
    to 1 and 0. *)
Lemma db_open_flags (e : open_env) (st : pool) :
  (is_open (state_of (db_open e st)) = is_open st /\
   is_closed (state_of (db_open e st)) = is_closed st) \/
  (is_open (state_of (db_open e st)) = 1 /\
   is_closed (state_of (db_open e st)) = 0).
Proof.
  unfold db_open, pthread_mutex_lock.
  destruct (open_init e st) as [st0|st0] eqn:Hinit.
  { left. split; [apply (open_init_frame is_open e) |
                  apply (open_init_frame is_closed e)]; auto. }
  assert (Hopen0 : is_open st0 = is_open st)
    by (apply (open_init_frame is_open e); auto).
  assert (Hclosed0 : is_closed st0 = is_closed st)
    by (apply (open_init_frame is_closed e); auto).
  destruct (negb (oe_mutex_lock e =? 0)); [left; split; assumption|].
  destruct (db_mutex st0); [left; split; assumption|].
  destruct (open_fill e _ 0 DB_POOL_CONN_COUNT) as [st1|st1] eqn:Hfill.
  { left. simpl. split.
    - rewrite (open_fill_frame is_open e) with (st := set_db_mutex true st0)
        (i := 0%nat) (fuel := DB_POOL_CONN_COUNT); auto.
    - rewrite (open_fill_frame is_closed e) with (st := set_db_mutex true st0)
        (i := 0%nat) (fuel := DB_POOL_CONN_COUNT); auto. }
  destruct (negb (oe_wrlock e =? 0)); [|right; split; reflexivity].
  left. simpl. split.
  - rewrite (open_fill_frame is_open e) with (st := set_db_mutex true st0)
      (i := 0%nat) (fuel := DB_POOL_CONN_COUNT); auto.
  - rewrite (open_fill_frame is_closed e) with (st := set_db_mutex true st0)
      (i := 0%nat) (fuel := DB_POOL_CONN_COUNT); auto.
Qed.

(** [db_close] leaves [is_open] and [is_closed] as they were, or sets them
    to 0 and 1. *)
Lemma db_close_flags (e : close_env) (st : pool) :
  (is_open (state_of (db_close e st)) = is_open st /\
   is_closed (state_of (db_close e st)) = is_closed st) \/
  (is_open (state_of (db_close e st)) = 0 /\
   is_closed (state_of (db_close e st)) = 1).
Proof.
  unfold db_close, pthread_rwlock_unlock.
  destruct (is_inited st =? 0); [left; split; reflexivity|].
  destruct (negb (ce_wrlock e =? 0)); [left; split; reflexivity|].
  destruct (negb (is_closed st =? 0)); [left; split; reflexivity|].
  right.
  destruct (close_drain e _ 0 _) as [o|] eqn:Hdrain; [|split; reflexivity].
  split.
  - rewrite (close_drain_frame is_open e (fun _ _ => eq_refl)
               (fun _ _ => eq_refl) (fun _ _ => eq_refl) _ _ _ _ Hdrain).
    reflexivity.
  - rewrite (close_drain_frame is_closed e (fun _ _ => eq_refl)
               (fun _ _ => eq_refl) (fun _ _ => eq_refl) _ _ _ _ Hdrain).
    reflexivity.
Qed.

Lemma state_of_outcome_map {A B : Type} (f : A -> B) (o : outcome A) :
  state_of (outcome_map f o) = state_of o.
Proof. destruct o; reflexivity. Qed.

Lemma exec_lifecycle_ok (c : call) (st : pool) :
  lifecycle_ok st -> lifecycle_ok (state_of (exec c st)).
Proof.
  intros Hok. unfold lifecycle_ok in *.
  destruct c as [e|e|e|e h]; simpl; rewrite state_of_outcome_map.
  - destruct (db_open_flags e st) as [[-> ->]|[-> ->]]; auto.
  - destruct (db_close_flags e st) as [[-> ->]|[-> ->]]; auto.
  - rewrite (db_get_conn_frame is_open), (db_get_conn_frame is_closed); auto.
  - rewrite (db_post_conn_frame is_open), (db_post_conn_frame is_closed);
      auto.
Qed.

Lemma run_cons (c : call) (cs : list call) (st : pool) :
  run (c :: cs) st =
    match exec c st with
    | Returns _ st' => run cs st'
    | Blocks st' => st'
    end.
Proof. reflexivity. Qed.

Lemma run_lifecycle_ok (cs : list call) :
  forall st, lifecycle_ok st -> lifecycle_ok (run cs st).
Proof.
  induction cs as [|c cs IH]; intros st Hok; [exact Hok|].
  rewrite run_cons. pose proof (exec_lifecycle_ok c st Hok) as Hstep.
  destruct (exec c st) as [v st'|st']; simpl in Hstep; auto.
Qed.

(** C8: after any sequence of [db_open] and [db_close] calls from the
    initial state, whatever their external calls do, the flags are (0, 1)
    or (1, 0); [is_open] = 1 together with [is_closed] = 1 does not
    occur. *)
Theorem open_and_closed_never (cs : list (open_env + close_env)) :
  lifecycle_ok (run (map lifecycle_call cs) init_pool) /\
  ~ (is_open (run (map lifecycle_call cs) init_pool) = 1 /\
     is_closed (run (map lifecycle_call cs) init_pool) = 1).
Proof.
  assert (Hok : lifecycle_ok (run (map lifecycle_call cs) init_pool)).
  { apply run_lifecycle_ok. left. split; reflexivity. }
  split; [exact Hok|].
  intros [Hopen Hclosed].
  destruct Hok as [[H0 _]|[_ H0]]; congruence.
Qed.

(** ** The arrays keep their size *)

Lemma open_fill_length (e : open_env) :
  forall fuel i st st',
    (open_fill e st i fuel = inl st' \/ open_fill e st i fuel = inr st') ->
    length (mysql_conns st') = length (mysql_conns st).
Proof.
  induction fuel as [|fuel IH]; intros i st st' Hres; simpl in Hres.
  - destruct Hres as [Hres|Hres]; congruence.
  - destruct (is_null (conn_at st i)).
    + destruct (attempt_failed _ _).
      * destruct Hres as [Hres|Hres]; [|discriminate].
        injection Hres as <-. simpl.
        rewrite open_rollback_length. simpl. apply length_insert.
      * rewrite (IH _ _ _ Hres). simpl. apply length_insert.
    + destruct (negb (oe_ping e i =? 0)).
      * destruct Hres as [Hres|Hres]; [|discriminate].
        injection Hres as <-. reflexivity.
      * apply (IH _ _ _ Hres).
Qed.

Lemma db_open_wf (e : open_env) (st : pool) :
  pool_wf st -> pool_wf (state_of (db_open e st)).
Proof.
  intros [Hconns Hbusy].
  assert (Hb : mysql_conns_busy (state_of (db_open e st)) =
               mysql_conns_busy st).
  { unfold db_open, pthread_mutex_lock.
    destruct (open_init e st) as [st0|st0] eqn:Hinit;
      [apply (open_init_frame mysql_conns_busy e); auto|].
    assert (H0 : mysql_conns_busy st0 = mysql_conns_busy st)
      by (apply (open_init_frame mysql_conns_busy e); auto).
    destruct (negb (oe_mutex_lock e =? 0)); [exact H0|].
    destruct (db_mutex st0); [exact H0|].
    destruct (open_fill e _ 0 DB_POOL_CONN_COUNT) as [st1|st1] eqn:Hfill.
    - simpl. rewrite <- H0.
      apply (open_fill_frame mysql_conns_busy e) with
        (st := set_db_mutex true st0) (i := 0%nat)
        (fuel := DB_POOL_CONN_COUNT); auto.
    - assert (H1 : mysql_conns_busy st1 = mysql_conns_busy st0).
      { apply (open_fill_frame mysql_conns_busy e) with
          (st := set_db_mutex true st0) (i := 0%nat)
          (fuel := DB_POOL_CONN_COUNT); auto. }
      destruct (negb (oe_wrlock e =? 0)); simpl; congruence. }
  assert (Hc : length (mysql_conns (state_of (db_open e st))) =
               length (mysql_conns st)).
  { unfold db_open, pthread_mutex_lock.
    destruct (open_init e st) as [st0|st0] eqn:Hinit;
      [f_equal; apply (open_init_frame mysql_conns e); auto|].
    assert (H0 : mysql_conns st0 = mysql_conns st)
      by (apply (open_init_frame mysql_conns e); auto).
    destruct (negb (oe_mutex_lock e =? 0)); [simpl; congruence|].
    destruct (db_mutex st0); [simpl; congruence|].
    destruct (open_fill e _ 0 DB_POOL_CONN_COUNT) as [st1|st1] eqn:Hfill.
    - simpl. rewrite <- H0.
      apply (open_fill_length e DB_POOL_CONN_COUNT 0 (set_db_mutex true st0)).
      left. exact Hfill.
    - assert (H1 : length (mysql_conns st1) = length (mysql_conns st0)).
      { apply (open_fill_length e DB_POOL_CONN_COUNT 0
                 (set_db_mutex true st0)). right. exact Hfill. }
      destruct (negb (oe_wrlock e =? 0)); simpl; congruence. }
  split; [rewrite Hc; exact Hconns | rewrite Hb; exact Hbusy].
Qed.

Lemma db_close_wf (e : close_env) (st : pool) :
  pool_wf st -> pool_wf (state_of (db_close e st)).
Proof.
  intros [Hconns Hbusy]. split.
  - rewrite (db_close_frame mysql_conns); auto.
  - rewrite (db_close_frame mysql_conns_busy); auto.
Qed.

Lemma db_get_conn_busy_length (e : get_env) (st : pool) :
  length (mysql_conns_busy (state_of (db_get_conn e st))) =
  length (mysql_conns_busy st).
Proof.
  assert (Hpost : forall rc s,
    mysql_conns_busy (sem_post_ignored rc s) = mysql_conns_busy s).
  { intros rc s. unfold sem_post_ignored, sem_post.
    destruct (negb (rc =? 0)); reflexivity. }
  unfold db_get_conn, sem_wait, pthread_mutex_timedlock,
    pthread_mutex_unlock, pthread_rwlock_unlock.
  destruct (is_inited st =? 0); [reflexivity|].
  destruct (negb (ge_rdlock_first e =? 0)); [reflexivity|].
  destruct (is_open st =? 0) eqn:Hopen; [reflexivity|].
  destruct (negb (ge_sem_wait e =? 0)); [reflexivity|].
  destruct (0 <? db_sem st); [|reflexivity].
  destruct (negb (ge_clock_gettime e =? 0)).
  { simpl. rewrite Hpost. reflexivity. }
  destruct (negb (ge_mutex_timedlock e _ =? 0)).
  { simpl. rewrite Hpost. reflexivity. }
  cbn [db_mutex set_db_sem].
  destruct (db_mutex st).
  { simpl. rewrite Hpost. reflexivity. }
  destruct (negb (ge_rdlock_second e =? 0)); [reflexivity|].
  cbn [is_open set_db_mutex set_db_sem]. rewrite Hopen.
  pose proof (get_scan_length DB_POOL_CONN_COUNT 0
                (set_db_mutex true (set_db_sem (db_sem st - 1) st))) as Hscan.
  destruct (get_scan _ 0 DB_POOL_CONN_COUNT) as [st' p]. simpl in Hscan.
  destruct (is_null p); simpl; rewrite ?Hpost; exact Hscan.
Qed.

Lemma db_get_conn_wf (e : get_env) (st : pool) :
  pool_wf st -> pool_wf (state_of (db_get_conn e st)).
Proof.
  intros [Hconns Hbusy]. split.
  - rewrite (db_get_conn_frame mysql_conns); auto.
  - rewrite db_get_conn_busy_length. exact Hbusy.
Qed.

Lemma pool_wf_same_length (st st' : pool) :
  length (mysql_conns st') = length (mysql_conns st) ->
  length (mysql_conns_busy st') = length (mysql_conns_busy st) ->
  pool_wf st -> pool_wf st'.
Proof. intros Hc Hb [Hconns Hbusy]. split; congruence. Qed.

Lemma db_post_conn_wf (e : post_env) (h : MYSQL_ptr) (st : pool) :
  pool_wf st -> pool_wf (state_of (db_post_conn e h st)).
Proof.
  apply pool_wf_same_length;
  unfold db_post_conn, pthread_mutex_lock, pthread_mutex_unlock, sem_post;
  (destruct (is_inited st =? 0); [reflexivity|]);
  (destruct (is_null h); [reflexivity|]);
  (destruct (negb (pe_mutex_lock e =? 0)); [reflexivity|]);
  (destruct (db_mutex st); [reflexivity|]);
  pose proof (post_scan_length h DB_POOL_CONN_COUNT 0 (set_db_mutex true st))
    as [Hc Hb];
  destruct (post_scan h _ 0 DB_POOL_CONN_COUNT) as [st' found];
  (destruct (found =? 0); [assumption|]);
  destruct (negb (pe_sem_post e =? 0)) eqn:Hrc; simpl; rewrite ?Hrc;
    assumption.
Qed.

Lemma exec_wf (c : call) (st : pool) :
  pool_wf st -> pool_wf (state_of (exec c st)).
Proof.
  intros Hwf. destruct c as [e|e|e|e h]; simpl; rewrite state_of_outcome_map.
  - apply db_open_wf, Hwf.
  - apply db_close_wf, Hwf.
  - apply db_get_conn_wf, Hwf.
  - apply db_post_conn_wf, Hwf.
Qed.

Lemma run_wf (cs : list call) :
  forall st, pool_wf st -> pool_wf (run cs st).
Proof.
  induction cs as [|c cs IH]; intros st Hwf; [exact Hwf|].
  rewrite run_cons. pose proof (exec_wf c st Hwf) as Hstep.
  destruct (exec c st) as [v st'|st']; simpl in Hstep; auto.
Qed.

(** ** The number of busy slots *)

Lemma busy_count_bounds (st : pool) :
  pool_wf st -> 0 <= busy_count st <= Z.of_nat DB_POOL_CONN_COUNT.
Proof.
  intros [_ Hbusy]. unfold busy_count.
  pose proof (length_filter (fun b : Z => b <> 0) (mysql_conns_busy st)).
  lia.
Qed.

(** C6: along every sequence of [db_get_conn] and [db_post_conn] calls
    that respects the loan discipline, made from a pool with no handle on
    loan, the number of busy slots is at least 0 and at most
    [DB_POOL_CONN_COUNT] after every call. *)
Theorem busy_count_never_exceeds (cs : list call) (st : pool) (n : nat) :
  pool_wf st ->
  loan_discipline [] cs st = true ->
  0 <= busy_count (run (take n cs) st) <= Z.of_nat DB_POOL_CONN_COUNT.
Proof.
  intros Hwf _. apply busy_count_bounds, run_wf, Hwf.
Qed.

Lemma busy_count_never_exceeds_witness :
  0 <= busy_count (run (take 2 get_get_post_post) open_pool)
    <= Z.of_nat DB_POOL_CONN_COUNT.
Proof.
  apply (busy_count_never_exceeds get_get_post_post open_pool 2).
  - exact pool_wf_open.
  - vm_compute. reflexivity.
Defined.

Example busy_count_along_run :
  map (fun n => busy_count (run (take n get_get_post_post) open_pool))
      [0; 1; 2; 3; 4]%nat = [0; 1; 2; 1; 0].
Proof. reflexivity. Qed.

(** ** db_get_conn: the gate and the timeout *)

(** C2, as the code has it: with the pool initialised and open, the wait
    on the gate is a plain [sem_wait]: with no permit available the call
    does not return, whatever the clock and the timeout.  The timeout of
    [DEFAULT_MUTEX_TIMEOUT_SEC] = 30 seconds bounds the wait for the mutex
    that follows: the deadline handed to [pthread_mutex_timedlock] is the
    current second plus 30, and when the mutex is not obtained by then the
    call returns null with the mutex message, the permit being posted
    back. *)
Theorem db_get_conn_timeout_is_for_mutex (e : get_env) (st : pool) :
  is_inited st <> 0 -> ge_rdlock_first e = 0 -> is_open st <> 0 ->
  ge_sem_wait e = 0 ->
  DEFAULT_MUTEX_TIMEOUT_SEC = 30 /\
  (db_sem st <= 0 -> db_get_conn e st = Blocks st) /\
  (0 < db_sem st -> ge_clock_gettime e = 0 ->
   ge_mutex_timedlock e (ge_tv_sec e + DEFAULT_MUTEX_TIMEOUT_SEC) <> 0 ->
   exists st',
     db_get_conn e st = Returns NULL st' /\
     err_last st' = Some err_mutex /\
     (ge_sem_post e = 0 -> db_sem st' = db_sem st)).
Proof.
  intros Hinit Hrd Hopen Hwait.
  apply Z.eqb_neq in Hinit, Hopen.
  split; [reflexivity|]. split.
  - intros Hsem. unfold db_get_conn, sem_wait, pthread_rwlock_unlock.
    rewrite Hinit, Hrd, Hopen, Hwait. cbn -[get_scan].
    destruct (0 <? db_sem st) eqn:Hpos; [|reflexivity].
    apply Z.ltb_lt in Hpos. lia.
  - intros Hsem Hclock Hlock.
    apply Z.ltb_lt in Hsem. apply Z.eqb_neq in Hlock.
    unfold db_get_conn, sem_wait, pthread_rwlock_unlock,
      pthread_mutex_timedlock.
    rewrite Hinit, Hrd, Hopen, Hwait. cbn -[get_scan].
    rewrite Hsem, Hclock. cbn -[get_scan]. rewrite Hlock. cbn -[get_scan].
    eexists. split; [reflexivity|].
    unfold sem_post_ignored, sem_post.
    split.
    + destruct (negb (ge_sem_post e =? 0)); reflexivity.
    + intros ->. simpl. lia.
Qed.

Lemma db_get_conn_timeout_is_for_mutex_witness :
  db_get_conn get_env_ok drained_pool = Blocks drained_pool /\
  exists st',
    db_get_conn get_env_mutex_kept open_pool = Returns NULL st' /\
    err_last st' = Some err_mutex /\
    (ge_sem_post get_env_mutex_kept = 0 -> db_sem st' = db_sem open_pool).
Proof.
  split.
  - apply (db_get_conn_timeout_is_for_mutex get_env_ok drained_pool);
      [vm_compute; discriminate | reflexivity | vm_compute; discriminate
      | reflexivity |].
    vm_compute. discriminate.
  - apply (db_get_conn_timeout_is_for_mutex get_env_mutex_kept open_pool);
      [vm_compute; discriminate | reflexivity | vm_compute; discriminate
      | reflexivity | | | ].
    + vm_compute. reflexivity.
    + reflexivity.
    + vm_compute. discriminate.
Defined.

(** C2 as stated fails: with every permit taken, [db_get_conn] does not
    return a time-out error; it does not return at all, also when the
    clock works and the mutex would time out. *)
Lemma db_get_conn_gate_counterexample :
  db_sem drained_pool = 0 /\
  is_inited drained_pool = 1 /\
  is_open drained_pool = 1 /\
  db_get_conn get_env_ok drained_pool = Blocks drained_pool /\
  db_get_conn get_env_mutex_kept drained_pool = Blocks drained_pool.
Proof. vm_compute. repeat split. Qed.

(** ** db_get_conn: the permit on the failure paths *)

(** Four of the five failures behind the gate post the permit back: when
    [db_get_conn] returns null, the second read lock was obtained and
    [sem_post] works, the semaphore is where it was. *)
Lemma db_get_conn_permit_returned (e : get_env) (st st' : pool) :
  db_get_conn e st = Returns NULL st' ->
  ge_rdlock_second e = 0 -> ge_sem_post e = 0 ->
  db_sem st' = db_sem st.
Proof.
  intros Hres Hrd Hpost.
  unfold db_get_conn, sem_wait, pthread_mutex_timedlock, sem_post_ignored,
    sem_post, pthread_mutex_unlock, pthread_rwlock_unlock in Hres.
  rewrite Hrd, Hpost in Hres. cbn -[get_scan] in Hres.
  destruct (is_inited st =? 0); [injection Hres as <-; reflexivity|].
  destruct (negb (ge_rdlock_first e =? 0));
    [injection Hres as <-; reflexivity|].
  destruct (is_open st =? 0) eqn:Hopen; [injection Hres as <-; reflexivity|].
  destruct (negb (ge_sem_wait e =? 0)); [injection Hres as <-; reflexivity|].
  destruct (0 <? db_sem st); [|discriminate].
  destruct (negb (ge_clock_gettime e =? 0)).
  { injection Hres as <-. simpl. lia. }
  destruct (negb (ge_mutex_timedlock e _ =? 0)).
  { injection Hres as <-. simpl. lia. }
  cbn -[get_scan] in Hres.
  destruct (db_mutex st).
  { injection Hres as <-. simpl. lia. }
  cbn [is_open set_db_mutex set_db_sem] in Hres. rewrite Hopen in Hres.
  pose proof (get_scan_frame db_sem (fun _ _ => eq_refl) DB_POOL_CONN_COUNT 0
                (set_db_mutex true (set_db_sem (db_sem st - 1) st))) as Hscan.
  destruct (get_scan _ 0 DB_POOL_CONN_COUNT) as [st1 p]. simpl in Hscan.
  destruct (is_null p) eqn:Hp.
  - injection Hres as <-. simpl. lia.
  - injection Hres as -> _. discriminate.
Qed.

(** The failure of the second read lock is the fifth: [db_get_conn]
    returns right away, with the permit taken and the mutex locked. *)
Lemma db_get_conn_rwlock_leak (e : get_env) (st : pool) :
  is_inited st <> 0 -> ge_rdlock_first e = 0 -> is_open st <> 0 ->
  ge_sem_wait e = 0 -> 0 < db_sem st -> ge_clock_gettime e = 0 ->
  ge_mutex_timedlock e (ge_tv_sec e + DEFAULT_MUTEX_TIMEOUT_SEC) = 0 ->
  db_mutex st = false -> ge_rdlock_second e <> 0 ->
  db_get_conn e st =
    Returns NULL
      (set_err_last err_rwlock
         (set_db_mutex true (set_db_sem (db_sem st - 1) st))).
Proof.
  intros Hinit Hrd Hopen Hwait Hsem Hclock Hlock Hfree Hrd2.
  apply Z.eqb_neq in Hinit, Hopen, Hrd2. apply Z.ltb_lt in Hsem.
  unfold db_get_conn, sem_wait, pthread_rwlock_unlock,
    pthread_mutex_timedlock.
  rewrite Hinit, Hrd, Hopen, Hwait. cbn -[get_scan].
  rewrite Hsem, Hclock. cbn -[get_scan]. rewrite Hlock, Hfree.
  cbn -[get_scan]. rewrite Hrd2. reflexivity.
Qed.

(** C3 at the failing input: on the open pool with all eight permits, a
    [db_get_conn] whose second [pthread_rwlock_rdlock] fails returns null
    with the rw-lock message and leaves seven permits and the mutex
    locked. *)
Theorem db_get_conn_rwlock_failure_keeps_permit :
  db_sem open_pool = 8 /\
  db_mutex open_pool = false /\
  exists st',
    db_get_conn get_env_rdlock_fails open_pool = Returns NULL st' /\
    err_last st' = Some err_rwlock /\
    db_sem st' = 7 /\
    db_mutex st' = true.
Proof.
  split; [reflexivity|]. split; [reflexivity|].
  eexists. split; [vm_compute; reflexivity|].
  repeat split.
Qed.

(** ** db_get_conn: the busy flags on the failure paths *)

(** When no free slot holds a null pointer, a scan that comes back with a
    null pointer has found every slot busy and has written nothing. *)
Lemma get_scan_null (st : pool) :
  forall (fuel k : nat) (st' : pool),
    (k + fuel <= length (mysql_conns_busy st))%nat ->
    (forall i, (k <= i)%nat -> (i < k + fuel)%nat ->
       busy_at st i = 0 -> conn_at st i <> NULL) ->
    get_scan st k fuel = (st', NULL) -> st' = st.
Proof.
  induction fuel as [|fuel IH]; intros k st' Hlen Hconn Hres; simpl in Hres.
  - congruence.
  - destruct (busy_at st k =? 0) eqn:Hk.
    + apply Z.eqb_eq in Hk. injection Hres as _ Hp.
      exfalso. apply (Hconn k); [lia | lia | exact Hk | exact Hp].
    + apply (IH (S k)); [lia | | exact Hres].
      intros i Hi1 Hi2. apply Hconn; lia.
Qed.


(** The proviso of [db_get_conn_failure_keeps_flags] is needed: on a pool
    built by hand with a null pointer in its first free slot, [db_get_conn]
    returns null with the no-free-slot message and the permit posted
    back, and has set the busy flag of that slot.  No sequence of calls
    leads to such a pool ([run_filled] below). *)
Example db_get_conn_null_slot_sets_flag :
  conn_at null_slot_pool 0 = NULL /\
  busy_at null_slot_pool 0 = 0 /\
  exists st',
    db_get_conn get_env_ok null_slot_pool = Returns NULL st' /\
    err_last st' = Some err_no_free_slot_bug /\
    db_sem st' = db_sem null_slot_pool /\
    busy_at st' 0 = 1 /\
    mysql_conns_busy st' <> mysql_conns_busy null_slot_pool.
Proof.
  split; [reflexivity|]. split; [reflexivity|].
  eexists. split; [vm_compute; reflexivity|].
  repeat split. discriminate.
Qed.

(** ** db_close: the connections *)

(** [db_close] hands no connection to [mysql_close] and clears no slot. *)
Lemma db_close_keeps_connections (e : close_env) (st : pool) :
  mysql_conns (state_of (db_close e st)) = mysql_conns st /\
  mysql_closed (state_of (db_close e st)) = mysql_closed st.
Proof.
  split; [apply (db_close_frame mysql_conns) |
          apply (db_close_frame mysql_closed)]; auto.
Qed.

(** A pass that ends with [ready] set has found no slot with its busy flag
    at 1; a pass that returns, returns -1. *)
Lemma close_pass_ready (e : close_env) :
  forall fuel p ready st i r st',
    close_pass e p ready st i fuel = PassEnd r st' -> r <> 0 ->
    forall j, (i <= j)%nat -> (j < i + fuel)%nat -> busy_at st j <> 1.
Proof.
  induction fuel as [|fuel IH]; intros p ready st i r st' Hres Hr j Hj1 Hj2;
    simpl in Hres.
  - lia.
  - unfold pthread_mutex_lock, pthread_mutex_unlock, sem_wait in Hres.
    destruct (negb (ce_mutex_lock e p i =? 0)); [discriminate|].
    destruct (db_mutex st); [discriminate|].
    destruct (busy_at _ i =? 1) eqn:Hbusy.
    + destruct (negb (ce_sem_wait e p =? 0)); [discriminate|].
      simpl in Hres. destruct (0 <? db_sem st); [|discriminate].
      injection Hres as <- _. congruence.
    + destruct (decide (j = i)) as [->|Hne].
      * apply Z.eqb_neq in Hbusy. exact Hbusy.
      * apply (IH _ _ _ _ _ _ Hres Hr j); lia.
Qed.

Lemma close_pass_returns (e : close_env) :
  forall fuel p ready st i v st',
    close_pass e p ready st i fuel = PassReturn v st' -> v = -1.
Proof.
  induction fuel as [|fuel IH]; intros p ready st i v st' Hres;
    simpl in Hres.
  - discriminate.
  - unfold pthread_mutex_lock, pthread_mutex_unlock, sem_wait in Hres.
    destruct (negb (ce_mutex_lock e p i =? 0)); [congruence|].
    destruct (db_mutex st); [discriminate|].
    destruct (busy_at _ i =? 1).
    + destruct (negb (ce_sem_wait e p =? 0)); [congruence|].
      simpl in Hres. destruct (0 <? db_sem st); discriminate.
    + apply (IH _ _ _ _ _ _ Hres).
Qed.

Lemma close_drain_returns_0 (e : close_env) :
  forall fuel p st st',
    close_drain e st p fuel = Some (Returns 0 st') ->
    forall j, (j < DB_POOL_CONN_COUNT)%nat -> busy_at st j <> 1.
Proof.
  induction fuel as [|fuel IH]; intros p st st' Hres j Hj;
    cbn [close_drain] in Hres.
  - discriminate.
  - destruct (close_pass e p 0 st 0 DB_POOL_CONN_COUNT)
      as [r st1|v st1|st1] eqn:Hpass.
    + destruct (r =? 0) eqn:Hr.
      * pose proof (close_pass_frame mysql_conns_busy e
          (fun _ _ => eq_refl) (fun _ _ => eq_refl) (fun _ _ => eq_refl)
          DB_POOL_CONN_COUNT p 0 st 0%nat) as Hsame.
        rewrite Hpass in Hsame. simpl in Hsame.
        unfold busy_at. rewrite <- Hsame. apply (IH _ _ _ Hres j Hj).
      * apply Z.eqb_neq in Hr.
        apply (close_pass_ready e _ _ _ _ _ _ _ Hpass Hr j); lia.
    + apply close_pass_returns in Hpass. congruence.
    + discriminate.
Qed.

(** A [db_close] of an open pool that returns 0 leaves the pool not open,
    and has found no slot with its busy flag at 1. *)
Lemma db_close_not_open (e : close_env) (st st' : pool) :
  is_inited st <> 0 -> is_closed st = 0 ->
  db_close e st = Returns 0 st' ->
  is_open st' = 0 /\ is_closed st' = 1 /\ is_inited st' <> 0 /\
  forall j, (j < DB_POOL_CONN_COUNT)%nat -> busy_at st j <> 1.
Proof.
  intros Hinit Hclosed Hres.
  pose proof (db_close_frame is_inited e st) as Hfr.
  rewrite Hres in Hfr. simpl in Hfr. rewrite Hfr by auto.
  unfold db_close, pthread_rwlock_unlock in Hres.
  apply Z.eqb_neq in Hinit. rewrite Hinit, Hclosed in Hres.
  apply Z.eqb_neq in Hinit.
  destruct (negb (ce_wrlock e =? 0)); [discriminate|].
  cbn -[close_drain] in Hres.
  destruct (close_drain e _ 0 _) as [o|] eqn:Hdrain; [|discriminate].
  subst o.
  pose proof (close_drain_frame is_open e (fun _ _ => eq_refl)
    (fun _ _ => eq_refl) (fun _ _ => eq_refl) _ _ _ _ Hdrain) as Ho.
  pose proof (close_drain_frame is_closed e (fun _ _ => eq_refl)
    (fun _ _ => eq_refl) (fun _ _ => eq_refl) _ _ _ _ Hdrain) as Hc.
  simpl in Ho, Hc. repeat split; try assumption.
  intros j Hj. apply (close_drain_returns_0 e _ _ _ _ Hdrain j Hj).
Qed.

(** After it, [db_get_conn] returns null with the not-open message. *)
Lemma db_get_conn_after_close (e : get_env) (st : pool) :
  is_inited st <> 0 -> is_open st = 0 -> ge_rdlock_first e = 0 ->
  db_get_conn e st = Returns NULL (set_err_last err_not_open st).
Proof.
  intros Hinit Hopen Hrd. apply Z.eqb_neq in Hinit.
  unfold db_get_conn. rewrite Hinit, Hrd, Hopen. reflexivity.
Qed.

(** C1 at the failing input: on the open pool with no handle lent,
    [db_close] returns 0 and a later [db_get_conn] returns null with the
    not-open message, but the eight slots still hold their connections and
    none of them has been handed to [mysql_close]. *)
Theorem db_close_destroys_nothing :
  exists st',
    db_close close_env_ok open_pool = Returns 0 st' /\
    db_get_conn get_env_ok st' =
      Returns NULL (set_err_last err_not_open st') /\
    mysql_conns st' =
      [Addr 1; Addr 2; Addr 3; Addr 4; Addr 5; Addr 6; Addr 7; Addr 8] /\
    mysql_closed st' = [].
Proof.
  eexists. split; [vm_compute; reflexivity|].
  repeat split.
Qed.

(** ** An open pool has every slot filled *)

(** With every slot from [i] on filled, the filling loop only pings: it
    does not write the connection array. *)
Lemma open_fill_filled (e : open_env) :
  forall fuel i st st',
    (forall j, (i <= j)%nat -> (j < i + fuel)%nat -> conn_at st j <> NULL) ->
    (open_fill e st i fuel = inl st' \/ open_fill e st i fuel = inr st') ->
    mysql_conns st' = mysql_conns st.
Proof.
  induction fuel as [|fuel IH]; intros i st st' Hfilled Hres; simpl in Hres.
  - destruct Hres as [Hres|Hres]; congruence.
  - assert (Hi : is_null (conn_at st i) = false)
      by (apply is_null_false, Hfilled; lia).
    rewrite Hi in Hres.
    destruct (negb (oe_ping e i =? 0)).
    + destruct Hres as [Hres|Hres]; [|discriminate].
      injection Hres as <-. reflexivity.
    + apply (IH (S i) st st'); [|exact Hres].
      intros j Hj1 Hj2. apply Hfilled; lia.
Qed.

(** When the filling loop runs to its end, every slot it went over is
    filled, and the slots before are as they were. *)
Lemma open_fill_done (e : open_env) :
  forall fuel i st st',
    open_fill e st i fuel = inr st' ->
    (forall j, (i <= j)%nat -> (j < i + fuel)%nat -> conn_at st' j <> NULL) /\
    (forall j, (j < i)%nat -> conn_at st' j = conn_at st j).
Proof.
  induction fuel as [|fuel IH]; intros i st st' Hres; simpl in Hres.
  - injection Hres as <-. split; [lia | reflexivity].
  - destruct (is_null (conn_at st i)) eqn:Hnull.
    + destruct (attempt_failed _ _) eqn:Hfail; [discriminate|].
      apply attempt_failed_false in Hfail. destruct Hfail as [Hnn _].
      destruct (IH _ _ _ Hres) as [Hhigh Hlow]. split.
      * intros j Hj1 Hj2. destruct (decide (j = i)) as [->|Hne].
        -- rewrite Hlow by lia. exact Hnn.
        -- apply Hhigh; lia.
      * intros j Hj. rewrite Hlow by lia.
        apply conn_at_set_conn_ne. lia.
    + destruct (negb (oe_ping e i =? 0)); [discriminate|].
      destruct (IH _ _ _ Hres) as [Hhigh Hlow]. split.
      * intros j Hj1 Hj2. destruct (decide (j = i)) as [->|Hne].
        -- rewrite Hlow by lia. apply is_null_false. exact Hnull.
        -- apply Hhigh; lia.
      * intros j Hj. apply Hlow. lia.
Qed.

Lemma db_open_filled (e : open_env) (st : pool) :
  open_filled st -> open_filled (state_of (db_open e st)).
Proof.
  intros Hinv. unfold open_filled, slots_filled, conn_at in *.
  unfold db_open, pthread_mutex_lock.
  destruct (open_init e st) as [st0|st0] eqn:Hinit.
  { simpl.
    rewrite (open_init_frame is_open e) with (st := st) (st' := st0) by auto.
    rewrite (open_init_frame mysql_conns e) with (st := st) (st' := st0)
      by auto.
    exact Hinv. }
  assert (Hopen0 : is_open st0 = is_open st)
    by (apply (open_init_frame is_open e); auto).
  assert (Hconns0 : mysql_conns st0 = mysql_conns st)
    by (apply (open_init_frame mysql_conns e); auto).
  destruct (negb (oe_mutex_lock e =? 0)).
  { simpl. rewrite Hopen0, Hconns0. exact Hinv. }
  destruct (db_mutex st0).
  { simpl. rewrite Hopen0, Hconns0. exact Hinv. }
  destruct (open_fill e _ 0 DB_POOL_CONN_COUNT) as [st1|st1] eqn:Hfill.
  - simpl. intros Hopen1.
    assert (Hopen : is_open st <> 0).
    { assert (H1 : is_open st1 = is_open st0).
      { apply (open_fill_frame is_open e) with
          (st := set_db_mutex true st0) (i := 0%nat)
          (fuel := DB_POOL_CONN_COUNT); auto. }
      rewrite <- Hopen0, <- H1. exact Hopen1. }
    rewrite (open_fill_filled e DB_POOL_CONN_COUNT 0
               (set_db_mutex true st0) st1); [| |left; exact Hfill].
    + simpl. rewrite Hconns0. apply Hinv, Hopen.
    + intros j _ Hj. unfold conn_at. simpl. rewrite Hconns0.
      apply Hinv; [exact Hopen | exact Hj].
  - destruct (open_fill_done e _ _ _ _ Hfill) as [Hhigh _].
    destruct (negb (oe_wrlock e =? 0)); simpl; intros _ i Hi;
      apply Hhigh; lia.
Qed.

(** The scan of [db_post_conn] leaves a slot as it was or stores the
    handle in it. *)
Lemma post_scan_conn (h : MYSQL_ptr) :
  forall fuel i st j,
    conn_at (fst (post_scan h st i fuel)) j = conn_at st j \/
    conn_at (fst (post_scan h st i fuel)) j = h.
Proof.
  induction fuel as [|fuel IH]; intros i st j; simpl.
  - left. reflexivity.
  - destruct (negb (busy_at st i =? 0)); simpl; [|apply IH].
    unfold conn_at. simpl.
    destruct (decide (i = j)) as [->|Hne].
    + destruct (decide (j < length (mysql_conns st))%nat) as [Hlt|Hge].
      * right. apply list_lookup_total_insert_eq. exact Hlt.
      * left. rewrite list_insert_ge by lia. reflexivity.
    + left. apply list_lookup_total_insert_ne. exact Hne.
Qed.

Lemma db_post_conn_filled (e : post_env) (h : MYSQL_ptr) (st : pool) :
  open_filled st -> open_filled (state_of (db_post_conn e h st)).
Proof.
  intros Hinv Hopen.
  rewrite (db_post_conn_frame is_open) in Hopen by auto.
  specialize (Hinv Hopen). clear Hopen.
  unfold db_post_conn, pthread_mutex_lock, pthread_mutex_unlock, sem_post.
  destruct (is_inited st =? 0); [exact Hinv|].
  destruct (is_null h) eqn:Hnull; [exact Hinv|].
  apply is_null_false in Hnull.
  destruct (negb (pe_mutex_lock e =? 0)); [exact Hinv|].
  destruct (db_mutex st); [exact Hinv|].
  pose proof (post_scan_conn h DB_POOL_CONN_COUNT 0 (set_db_mutex true st))
    as Hscan.
  destruct (post_scan h _ 0 DB_POOL_CONN_COUNT) as [st' found].
  simpl in Hscan.
  assert (Hst' : slots_filled st').
  { intros i Hi. destruct (Hscan i) as [->| ->]; [|exact Hnull].
    apply (Hinv i Hi). }
  destruct (found =? 0); [exact Hst'|].
  destruct (negb (pe_sem_post e =? 0)) eqn:Hrc; simpl; rewrite ?Hrc;
    exact Hst'.
Qed.

Lemma exec_filled (c : call) (st : pool) :
  open_filled st -> open_filled (state_of (exec c st)).
Proof.
  intros Hinv. destruct c as [e|e|e|e h]; simpl;
    rewrite state_of_outcome_map.
  - apply db_open_filled, Hinv.
  - intros Hopen. unfold slots_filled, conn_at.
    rewrite (db_close_frame mysql_conns) by auto.
    apply Hinv.
    destruct (db_close_flags e st) as [[Ho _]|[Ho _]]; congruence.
  - intros Hopen. unfold slots_filled, conn_at.
    rewrite (db_get_conn_frame mysql_conns) by auto.
    rewrite (db_get_conn_frame is_open) in Hopen by auto.
    apply Hinv, Hopen.
  - apply db_post_conn_filled, Hinv.
Qed.


Lemma open_filled_init : open_filled init_pool.
Proof. intros Hopen. exfalso. apply Hopen. reflexivity. Qed.



(** ** The connections that are free *)

(** Marking a free slot busy takes its connection, and no other, out of
    the free connections. *)
Lemma free_conns_take (conns : list MYSQL_ptr) :
  forall (busy : list Z) (i : nat) (c : MYSQL_ptr),
    conns !! i = Some c -> busy !! i = Some 0 ->
    free_conns conns busy ≡ₚ c :: free_conns conns (<[i:=1]> busy).
Proof.
  induction conns as [|c0 conns IH]; intros busy i c Hc Hb.
  - discriminate.
  - destruct busy as [|b busy]; [discriminate|].
    destruct i as [|i]; simpl in *.
    + injection Hc as ->. injection Hb as ->. reflexivity.
    + destruct (b =? 0).
      * rewrite (IH busy i c Hc Hb). apply Permutation_swap.
      * apply (IH busy i c Hc Hb).
Qed.

(** Storing a handle in a busy slot and marking the slot free adds the
    handle, and nothing else, to the free connections. *)
Lemma free_conns_give (conns : list MYSQL_ptr) :
  forall (busy : list Z) (i : nat) (b : Z) (h : MYSQL_ptr),
    (i < length conns)%nat -> busy !! i = Some b -> b <> 0 ->
    free_conns (<[i:=h]> conns) (<[i:=0]> busy) ≡ₚ h :: free_conns conns busy.
Proof.
  induction conns as [|c0 conns IH]; intros busy i b h Hi Hb Hne.
  - simpl in Hi. lia.
  - destruct busy as [|b0 busy]; [discriminate|].
    destruct i as [|i]; simpl in *.
    + injection Hb as ->. apply Z.eqb_neq in Hne. rewrite Hne. reflexivity.
    + destruct (b0 =? 0).
      * rewrite (IH busy i b h) by (lia || assumption).
        apply Permutation_swap.
      * apply (IH busy i b h); (lia || assumption).
Qed.

(** A scan of [db_get_conn] that comes back with a connection has marked
    one free slot busy and read its pointer. *)
Lemma get_scan_found (st : pool) :
  forall (fuel k : nat) (st' : pool) (p : MYSQL_ptr),
    (k + fuel <= length (mysql_conns_busy st))%nat ->
    (k + fuel <= length (mysql_conns st))%nat ->
    get_scan st k fuel = (st', p) -> p <> NULL ->
    exists i,
      mysql_conns_busy st !! i = Some 0 /\
      mysql_conns st !! i = Some p /\
      st' = set_busy i 1 st.
Proof.
  induction fuel as [|fuel IH]; intros k st' p Hb Hc Hres Hp; simpl in Hres.
  - congruence.
  - destruct (busy_at st k =? 0) eqn:Hk.
    + apply Z.eqb_eq in Hk. injection Hres as <- <-. exists k.
      split; [|split; [|reflexivity]].
      * unfold busy_at in Hk. rewrite <- Hk.
        apply list_lookup_lookup_total_lt. lia.
      * unfold conn_at. simpl. apply list_lookup_lookup_total_lt. lia.
    + apply (IH (S k) st' p); [lia | lia | exact Hres | exact Hp].
Qed.

(** A scan of [db_post_conn] that sets [found] has stored the handle in
    one busy slot and marked it free. *)
Lemma post_scan_found (h : MYSQL_ptr) (st : pool) :
  forall (fuel k : nat) (st' : pool) (found : Z),
    (k + fuel <= length (mysql_conns_busy st))%nat ->
    (k + fuel <= length (mysql_conns st))%nat ->
    post_scan h st k fuel = (st', found) -> found <> 0 ->
    exists i b,
      mysql_conns_busy st !! i = Some b /\ b <> 0 /\
      (i < length (mysql_conns st))%nat /\
      st' = set_busy i 0 (set_conn i h st).
Proof.
  induction fuel as [|fuel IH]; intros k st' found Hb Hc Hres Hf;
    simpl in Hres.
  - congruence.
  - destruct (busy_at st k =? 0) eqn:Hk; simpl in Hres.
    + apply (IH (S k) st' found); [lia | lia | exact Hres | exact Hf].
    + apply Z.eqb_neq in Hk. injection Hres as <- <-.
      exists k, (busy_at st k).
      split; [apply list_lookup_lookup_total_lt; lia|].
      split; [exact Hk|]. split; [lia | reflexivity].
Qed.

(** A [db_get_conn] that returns a handle takes that handle, and nothing
    else, out of the free connections. *)
Lemma db_get_conn_takes (e : get_env) (st st' : pool) (h : MYSQL_ptr) :
  pool_wf st ->
  db_get_conn e st = Returns h st' -> h <> NULL ->
  pool_free_conns st ≡ₚ h :: pool_free_conns st'.
Proof.
  intros [Hc Hb] Hres Hh.
  unfold db_get_conn, sem_wait, pthread_mutex_timedlock,
    pthread_mutex_unlock, pthread_rwlock_unlock in Hres.
  destruct (is_inited st =? 0); [congruence|].
  destruct (negb (ge_rdlock_first e =? 0)); [congruence|].
  destruct (is_open st =? 0) eqn:Hopen; [congruence|].
  destruct (negb (ge_sem_wait e =? 0)); [congruence|].
  destruct (0 <? db_sem st); [|discriminate].
  destruct (negb (ge_clock_gettime e =? 0)); [congruence|].
  destruct (negb (ge_mutex_timedlock e _ =? 0)); [congruence|].
  cbn [db_mutex set_db_sem] in Hres.
  destruct (db_mutex st); [congruence|].
  destruct (negb (ge_rdlock_second e =? 0)); [congruence|].
  cbn [is_open set_db_mutex set_db_sem] in Hres. rewrite Hopen in Hres.
  destruct (get_scan _ 0 DB_POOL_CONN_COUNT) as [st1 p] eqn:Hscan.
  destruct (is_null p) eqn:Hp; [congruence|].
  injection Hres as -> <-.
  apply get_scan_found in Hscan; [| simpl; lia | simpl; lia | exact Hh].
  destruct Hscan as (i & Hbi & Hci & ->).
  unfold pool_free_conns. simpl in *.
  apply free_conns_take; assumption.
Qed.

(** A [db_post_conn] that returns 0 adds the handle it was given, and
    nothing else, to the free connections, whichever slot lent it. *)
Lemma db_post_conn_gives (e : post_env) (st st' : pool) (h : MYSQL_ptr) :
  pool_wf st ->
  db_post_conn e h st = Returns 0 st' ->
  pool_free_conns st' ≡ₚ h :: pool_free_conns st.
Proof.
  intros [Hc Hb] Hres.
  unfold db_post_conn, pthread_mutex_lock, pthread_mutex_unlock, sem_post
    in Hres.
  destruct (is_inited st =? 0); [discriminate|].
  destruct (is_null h); [discriminate|].
  destruct (negb (pe_mutex_lock e =? 0)); [discriminate|].
  destruct (db_mutex st); [discriminate|].
  destruct (post_scan h _ 0 DB_POOL_CONN_COUNT) as [st1 found] eqn:Hscan.
  destruct (found =? 0) eqn:Hfound; [discriminate|].
  apply Z.eqb_neq in Hfound.
  apply post_scan_found in Hscan; [| simpl; lia | simpl; lia | exact Hfound].
  destruct Hscan as (i & b & Hbi & Hne & Hi & ->).
  destruct (negb (pe_sem_post e =? 0)) eqn:Hrc; simpl in Hres;
    rewrite ?Hrc in Hres; simpl in Hres; [discriminate|].
  injection Hres as <-.
  unfold pool_free_conns. simpl in *.
  apply (free_conns_give _ _ _ b); assumption.
Qed.

(** ** db_close returns when nothing is lent *)

Lemma mutex_lock_unlock (st : pool) :
  db_mutex st = false ->
  pthread_mutex_unlock (set_db_mutex true st) = st.
Proof. destruct st; simpl; intros ->; reflexivity. Qed.

(** With the mutex free and obtained at every slot, a pass over slots
    none of which has its busy flag at 1 ends with [ready] set and the
    pool as it was. *)
Lemma close_pass_idle (e : close_env) (p : nat) (st : pool) :
  db_mutex st = false ->
  (forall j, ce_mutex_lock e p j = 0) ->
  forall fuel ready i,
    (forall j, (i <= j)%nat -> (j < i + fuel)%nat -> busy_at st j <> 1) ->
    close_pass e p ready st i fuel =
      PassEnd (match fuel with O => ready | S _ => 1 end) st.
Proof.
  intros Hfree Hlock.
  induction fuel as [|fuel IH]; intros ready i Hidle; simpl.
  - reflexivity.
  - unfold pthread_mutex_lock. rewrite Hlock, Hfree. simpl.
    assert (Hi : busy_at st i <> 1) by (apply Hidle; lia).
    apply Z.eqb_neq in Hi. unfold busy_at in *. simpl. rewrite Hi.
    rewrite (mutex_lock_unlock st Hfree).
    rewrite IH by (intros j Hj1 Hj2; apply Hidle; lia).
    destruct fuel; reflexivity.
Qed.

(** [db_close] of an initialised pool that is not closed, with every lock
    obtained and no slot busy, returns 0 after one pass and has only
    written the two flags. *)
Lemma db_close_returns (e : close_env) (st : pool) :
  is_inited st <> 0 -> ce_wrlock e = 0 -> is_closed st = 0 ->
  db_mutex st = false ->
  (forall j, ce_mutex_lock e 0 j = 0) ->
  (forall j, (j < DB_POOL_CONN_COUNT)%nat -> busy_at st j <> 1) ->
  db_close e st = Returns 0 (set_is_closed 1 (set_is_open 0 st)).
Proof.
  intros Hinit Hwr Hclosed Hfree Hlock Hidle.
  apply Z.eqb_neq in Hinit.
  unfold db_close, pthread_rwlock_unlock.
  rewrite Hinit, Hwr, Hclosed. cbn [negb Z.eqb close_drain].
  rewrite (close_pass_idle e 0 (set_is_closed 1 (set_is_open 0 st)));
    [reflexivity | exact Hfree | exact Hlock |].
  intros j _ Hj. apply Hidle. lia.
Qed.

(** * Further properties of the module *)

(** ** What a successful db_get_conn and db_post_conn have done *)

(** A [db_get_conn] that returns a handle has taken one permit, marked one
    free slot busy and read the handle from it, and has left the mutex
    free. *)
Lemma db_get_conn_inv (e : get_env) (st st' : pool) (h : MYSQL_ptr) :
  pool_wf st ->
  db_get_conn e st = Returns h st' -> h <> NULL ->
  exists i,
    mysql_conns_busy st !! i = Some 0 /\
    mysql_conns st !! i = Some h /\
    0 < db_sem st /\
    is_open st <> 0 /\
    st' = pthread_mutex_unlock
            (set_busy i 1
               (set_db_mutex true (set_db_sem (db_sem st - 1) st))).
Proof.
  intros [Hc Hb] Hres Hh.
  unfold db_get_conn, sem_wait, pthread_mutex_timedlock,
    pthread_rwlock_unlock in Hres.
  destruct (is_inited st =? 0); [congruence|].
  destruct (negb (ge_rdlock_first e =? 0)); [congruence|].
  destruct (is_open st =? 0) eqn:Hopen; [congruence|].
  destruct (negb (ge_sem_wait e =? 0)); [congruence|].
  destruct (0 <? db_sem st) eqn:Hsem; [|discriminate].
  destruct (negb (ge_clock_gettime e =? 0)); [congruence|].
  destruct (negb (ge_mutex_timedlock e _ =? 0)); [congruence|].
  cbn [db_mutex set_db_sem] in Hres.
  destruct (db_mutex st); [congruence|].
  destruct (negb (ge_rdlock_second e =? 0)); [congruence|].
  cbn [is_open set_db_mutex set_db_sem] in Hres. rewrite Hopen in Hres.
  destruct (get_scan _ 0 DB_POOL_CONN_COUNT) as [st1 p] eqn:Hscan.
  destruct (is_null p) eqn:Hp; [congruence|].
  injection Hres as -> <-.
  apply get_scan_found in Hscan; [| simpl; lia | simpl; lia | exact Hh].
  destruct Hscan as (i & Hbi & Hci & ->).
  exists i. simpl in Hbi, Hci.
  split; [exact Hbi|]. split; [exact Hci|].
  split; [apply Z.ltb_lt; exact Hsem|].
  split; [apply Z.eqb_neq; exact Hopen | reflexivity].
Qed.

(** A [db_post_conn] that returns 0 has stored the handle in one busy
    slot, marked it free and posted one permit, and has left the mutex
    free. *)
Lemma db_post_conn_inv (e : post_env) (st st' : pool) (h : MYSQL_ptr) :
  pool_wf st ->
  db_post_conn e h st = Returns 0 st' ->
  exists i b,
    mysql_conns_busy st !! i = Some b /\ b <> 0 /\
    (i < length (mysql_conns st))%nat /\
    h <> NULL /\
    st' = set_db_sem (db_sem st + 1)
            (pthread_mutex_unlock
               (set_busy i 0 (set_conn i h (set_db_mutex true st)))).
Proof.
  intros [Hc Hb] Hres.
  unfold db_post_conn, pthread_mutex_lock, sem_post in Hres.
  destruct (is_inited st =? 0); [discriminate|].
  destruct (is_null h) eqn:Hnull; [discriminate|].
  destruct (negb (pe_mutex_lock e =? 0)); [discriminate|].
  destruct (db_mutex st); [discriminate|].
  destruct (post_scan h _ 0 DB_POOL_CONN_COUNT) as [st1 found] eqn:Hscan.
  destruct (found =? 0) eqn:Hfound; [discriminate|].
  apply Z.eqb_neq in Hfound.
  apply post_scan_found in Hscan; [| simpl; lia | simpl; lia | exact Hfound].
  destruct Hscan as (i & b & Hbi & Hne & Hi & ->).
  destruct (negb (pe_sem_post e =? 0)) eqn:Hrc; simpl in Hres;
    rewrite ?Hrc in Hres; simpl in Hres; [discriminate|].
  injection Hres as <-.
  exists i, b. simpl in Hbi, Hi.
  split; [exact Hbi|]. split; [exact Hne|]. split; [exact Hi|].
  split; [apply is_null_false; exact Hnull | reflexivity].
Qed.

(** The number of set flags after one flag is written. *)
Lemma busy_flags_insert (l : list Z) :
  forall (i : nat) (b v : Z),
    l !! i = Some b ->
    Z.of_nat (length (filter (fun x => x <> 0) (<[i:=v]> l))) =
    Z.of_nat (length (filter (fun x => x <> 0) l))
    - (if b =? 0 then 0 else 1) + (if v =? 0 then 0 else 1).
Proof.
  induction l as [|x l IH]; intros i b v Hi.
  - discriminate.
  - destruct i as [|i]; simpl in Hi |- *.
    + injection Hi as ->. rewrite !filter_cons.
      destruct (decide (v <> 0)) as [Hv|Hv];
        destruct (decide (b <> 0)) as [Hb|Hb].
      * apply Z.eqb_neq in Hv, Hb. rewrite Hv, Hb. simpl length. lia.
      * apply dec_stable in Hb. subst b. apply Z.eqb_neq in Hv. rewrite Hv.
        simpl. lia.
      * apply dec_stable in Hv. subst v. apply Z.eqb_neq in Hb. rewrite Hb.
        simpl. lia.
      * apply dec_stable in Hv. apply dec_stable in Hb. subst. simpl. lia.
    + rewrite !filter_cons. specialize (IH i b v Hi).
      destruct (decide (x <> 0)); simpl length; lia.
Qed.

(** The accounting of a loan and of its return, as used for sequences of
    calls. *)
Lemma db_get_conn_accounting (e : get_env) (st st' : pool) (h : MYSQL_ptr) :
  pool_wf st -> db_get_conn e st = Returns h st' -> h <> NULL ->
  db_sem st' = db_sem st - 1 /\
  busy_count st' = busy_count st + 1 /\
  pool_free_conns st ≡ₚ h :: pool_free_conns st'.
Proof.
  intros Hwf Hres Hh.
  destruct (db_get_conn_inv e st st' h Hwf Hres Hh)
    as (i & Hbi & Hci & Hsem & _ & ->).
  unfold busy_count, pool_free_conns. cbn.
  rewrite (busy_flags_insert _ i 0 1 Hbi). cbn.
  split; [reflexivity|]. split; [lia|].
  apply free_conns_take; assumption.
Qed.

Lemma db_post_conn_accounting (e : post_env) (st st' : pool) (h : MYSQL_ptr) :
  pool_wf st -> db_post_conn e h st = Returns 0 st' ->
  db_sem st' = db_sem st + 1 /\
  busy_count st' = busy_count st - 1 /\
  pool_free_conns st' ≡ₚ h :: pool_free_conns st.
Proof.
  intros Hwf Hres.
  destruct (db_post_conn_inv e st st' h Hwf Hres)
    as (i & b & Hbi & Hne & Hi & _ & ->).
  unfold busy_count, pool_free_conns. cbn.
  rewrite (busy_flags_insert _ i b 0 Hbi).
  pose proof Hne as Hneb. apply Z.eqb_neq in Hneb. rewrite Hneb. cbn.
  split; [reflexivity|]. split; [lia|].
  apply (free_conns_give _ _ _ b); assumption.
Qed.

(** X1: a [db_get_conn] that returns a handle has taken exactly one
    permit, set exactly one more busy flag, and taken exactly that handle
    out of the free connections; it leaves the connection array and
    [err_last] as they were and the mutex free. *)
Theorem db_get_conn_success_effect (e : get_env) (st st' : pool)
    (h : MYSQL_ptr) :
  pool_wf st ->
  db_get_conn e st = Returns h st' -> is_null h = false ->
  db_sem st' = db_sem st - 1 /\
  busy_count st' = busy_count st + 1 /\
  pool_free_conns st ≡ₚ h :: pool_free_conns st' /\
  mysql_conns st' = mysql_conns st /\
  err_last st' = err_last st /\
  db_mutex st' = false.
Proof.
  intros Hwf Hres Hh. apply is_null_false in Hh.
  destruct (db_get_conn_inv e st st' h Hwf Hres Hh)
    as (i & Hbi & Hci & Hsem & Hopen & ->).
  unfold busy_count, pool_free_conns. simpl.
  split; [reflexivity|]. split.
  { rewrite (busy_flags_insert _ i 0 1 Hbi). simpl. lia. }
  split; [apply free_conns_take; assumption|].
  repeat split.
Qed.

Lemma db_get_conn_success_effect_witness :
  db_sem one_lent_pool = db_sem open_pool - 1 /\
  busy_count one_lent_pool = busy_count open_pool + 1 /\
  pool_free_conns open_pool ≡ₚ Addr 1 :: pool_free_conns one_lent_pool /\
  mysql_conns one_lent_pool = mysql_conns open_pool /\
  err_last one_lent_pool = err_last open_pool /\
  db_mutex one_lent_pool = false.
Proof.
  apply (db_get_conn_success_effect get_env_ok open_pool one_lent_pool
           (Addr 1)).
  - exact pool_wf_open.
  - vm_compute. reflexivity.
  - reflexivity.
Defined.

(** X2: a [db_post_conn] that returns 0 has posted exactly one permit,
    cleared exactly one busy flag, and added exactly the handle it was
    given to the free connections; it leaves [err_last] as it was and the
    mutex free. *)
Theorem db_post_conn_success_effect (e : post_env) (st st' : pool)
    (h : MYSQL_ptr) :
  pool_wf st ->
  db_post_conn e h st = Returns 0 st' ->
  db_sem st' = db_sem st + 1 /\
  busy_count st' = busy_count st - 1 /\
  pool_free_conns st' ≡ₚ h :: pool_free_conns st /\
  is_null h = false /\
  err_last st' = err_last st /\
  db_mutex st' = false.
Proof.
  intros Hwf Hres.
  destruct (db_post_conn_inv e st st' h Hwf Hres)
    as (i & b & Hbi & Hne & Hi & Hh & ->).
  unfold busy_count, pool_free_conns. simpl.
  split; [reflexivity|]. split.
  { rewrite (busy_flags_insert _ i b 0 Hbi).
    apply Z.eqb_neq in Hne. rewrite Hne. simpl. lia. }
  split; [apply (free_conns_give _ _ _ b); assumption|].
  split; [apply is_null_false; exact Hh|].
  split; reflexivity.
Qed.

Lemma db_post_conn_success_effect_witness :
  db_sem open_pool = db_sem one_lent_pool + 1 /\
  busy_count open_pool = busy_count one_lent_pool - 1 /\
  pool_free_conns open_pool ≡ₚ Addr 1 :: pool_free_conns one_lent_pool /\
  is_null (Addr 1) = false /\
  err_last open_pool = err_last one_lent_pool /\
  db_mutex open_pool = false.
Proof.
  apply (db_post_conn_success_effect post_env_ok one_lent_pool open_pool
           (Addr 1)).
  - apply run_wf, pool_wf_init.
  - vm_compute. reflexivity.
Defined.

Lemma busy_flags_none (l : list Z) :
  length (filter (fun x => x <> 0) l) = 0%nat ->
  forall j b, l !! j = Some b -> b = 0.
Proof.
  induction l as [|x l IH]; intros Hnone j b Hj; [discriminate|].
  rewrite filter_cons in Hnone.
  destruct (decide (x <> 0)) as [Hx|Hx]; [discriminate|].
  apply dec_stable in Hx. destruct j as [|j]; simpl in Hj.
  - congruence.
  - apply (IH Hnone j b Hj).
Qed.

(** X3: a [db_get_conn] that returns a handle followed by a
    [db_post_conn] of that handle that returns 0 brings the semaphore and
    the number of busy slots back to what they were, and the free
    connections back up to their order; when no slot was busy before, both
    arrays are exactly as they were. *)
Theorem get_post_round_trip (e1 : get_env) (e2 : post_env)
    (st st1 st2 : pool) (h : MYSQL_ptr) :
  pool_wf st ->
  db_get_conn e1 st = Returns h st1 -> is_null h = false ->
  db_post_conn e2 h st1 = Returns 0 st2 ->
  db_sem st2 = db_sem st /\
  busy_count st2 = busy_count st /\
  pool_free_conns st2 ≡ₚ pool_free_conns st /\
  (busy_count st = 0 ->
   mysql_conns st2 = mysql_conns st /\
   mysql_conns_busy st2 = mysql_conns_busy st).
Proof.
  intros Hwf Hget Hh Hpost.
  assert (Hwf1 : pool_wf st1).
  { pose proof (db_get_conn_wf e1 st Hwf) as H. rewrite Hget in H. exact H. }
  apply is_null_false in Hh.
  destruct (db_get_conn_accounting e1 st st1 h Hwf Hget Hh)
    as (Hs1 & Hb1 & Hf1).
  destruct (db_post_conn_accounting e2 st1 st2 h Hwf1 Hpost)
    as (Hs2 & Hb2 & Hf2).
  split; [lia|]. split; [lia|]. split; [rewrite Hf2, Hf1; reflexivity|].
  intros Hnone.
  destruct (db_get_conn_inv e1 st st1 h Hwf Hget Hh)
    as (i & Hbi & Hci & _ & _ & ->).
  destruct (db_post_conn_inv e2 _ st2 h Hwf1 Hpost)
    as (j & b & Hbj & Hne & Hj & _ & ->).
  simpl in Hbj, Hj |- *.
  assert (Hij : j = i).
  { destruct (decide (j = i)) as [|Hji]; [assumption|].
    rewrite list_lookup_insert_ne in Hbj by congruence.
    unfold busy_count in Hnone.
    exfalso. apply Hne.
    apply (busy_flags_none (mysql_conns_busy st)) with (j := j); [lia|].
    exact Hbj. }
  subst j. split.
  - apply list_insert_id. exact Hci.
  - rewrite list_insert_insert_eq. apply list_insert_id. exact Hbi.
Qed.

Lemma get_post_round_trip_witness :
  db_sem (state_of (db_post_conn post_env_ok (Addr 2) two_lent_pool)) =
    db_sem one_lent_pool /\
  busy_count (state_of (db_post_conn post_env_ok (Addr 2) two_lent_pool)) =
    busy_count one_lent_pool /\
  pool_free_conns (state_of (db_post_conn post_env_ok (Addr 2) two_lent_pool))
    ≡ₚ pool_free_conns one_lent_pool /\
  (busy_count one_lent_pool = 0 ->
   mysql_conns (state_of (db_post_conn post_env_ok (Addr 2) two_lent_pool)) =
     mysql_conns one_lent_pool /\
   mysql_conns_busy
     (state_of (db_post_conn post_env_ok (Addr 2) two_lent_pool)) =
     mysql_conns_busy one_lent_pool).
Proof.
  apply (get_post_round_trip get_env_ok post_env_ok one_lent_pool
           two_lent_pool _ (Addr 2)).
  - apply run_wf, pool_wf_init.
  - vm_compute. reflexivity.
  - reflexivity.
  - vm_compute. reflexivity.
Defined.

(** X4: when [db_get_conn] gets through the gate and the locks of an open
    pool, it returns the connection of the free slot of lowest index,
    sets the busy flag of that slot and of no other, and takes one
    permit. *)
Theorem db_get_conn_lowest_free (e : get_env) (st : pool) (i : nat) :
  is_inited st <> 0 -> ge_rdlock_first e = 0 -> is_open st <> 0 ->
  ge_sem_wait e = 0 -> 0 < db_sem st -> ge_clock_gettime e = 0 ->
  ge_mutex_timedlock e (ge_tv_sec e + DEFAULT_MUTEX_TIMEOUT_SEC) = 0 ->
  db_mutex st = false -> ge_rdlock_second e = 0 ->
  (i < DB_POOL_CONN_COUNT)%nat ->
  busy_at st i = 0 ->
  (forall j, (j < i)%nat -> busy_at st j <> 0) ->
  conn_at st i <> NULL ->
  exists st',
    db_get_conn e st = Returns (conn_at st i) st' /\
    mysql_conns_busy st' = <[i:=1]> (mysql_conns_busy st) /\
    mysql_conns st' = mysql_conns st /\
    db_sem st' = db_sem st - 1 /\
    db_mutex st' = false.
Proof.
  intros Hinit Hrd Hopen Hwait Hsem Hclock Hlock Hfree Hrd2 Hi Hbusy Hlow Hc.
  apply Z.eqb_neq in Hinit, Hopen. apply Z.ltb_lt in Hsem.
  apply is_null_false in Hc.
  unfold db_get_conn, sem_wait, pthread_rwlock_unlock,
    pthread_mutex_timedlock.
  rewrite Hinit, Hrd, Hopen, Hwait. cbn -[get_scan].
  rewrite Hsem, Hclock. cbn -[get_scan]. rewrite Hlock, Hfree.
  cbn -[get_scan]. rewrite Hrd2. cbn -[get_scan]. rewrite Hopen.
  rewrite (get_scan_first_free _ i); [| lia | simpl; lia | exact Hbusy |].
  - unfold conn_at in *. simpl. rewrite Hc.
    eexists. split; [reflexivity|]. repeat split.
  - intros j _ Hj. apply (Hlow j Hj).
Qed.

Lemma db_get_conn_lowest_free_witness :
  exists st',
    db_get_conn get_env_ok one_lent_pool =
      Returns (conn_at one_lent_pool 1) st' /\
    mysql_conns_busy st' = <[1%nat:=1]> (mysql_conns_busy one_lent_pool) /\
    mysql_conns st' = mysql_conns one_lent_pool /\
    db_sem st' = db_sem one_lent_pool - 1 /\
    db_mutex st' = false.
Proof.
  apply (db_get_conn_lowest_free get_env_ok one_lent_pool 1);
    try reflexivity; try (vm_compute; discriminate).
  - unfold DB_POOL_CONN_COUNT. lia.
  - intros j Hj. replace j with 0%nat by lia. vm_compute. discriminate.
Defined.

(** X5: a [db_post_conn] of a non-null handle on an initialised pool in
    which no slot is busy returns -1 with the no-busy-slot message; it
    stores the handle nowhere and posts no permit. *)
Theorem db_post_conn_nothing_lent (e : post_env) (h : MYSQL_ptr) (st : pool) :
  is_inited st <> 0 -> is_null h = false ->
  pe_mutex_lock e = 0 -> db_mutex st = false ->
  (forall j, (j < DB_POOL_CONN_COUNT)%nat -> busy_at st j = 0) ->
  exists st',
    db_post_conn e h st = Returns (-1) st' /\
    err_last st' = Some err_no_busy_slot_bug /\
    mysql_conns st' = mysql_conns st /\
    mysql_conns_busy st' = mysql_conns_busy st /\
    db_sem st' = db_sem st /\
    db_mutex st' = false.
Proof.
  intros Hinit Hh Hlock Hfree Hnone. apply Z.eqb_neq in Hinit.
  unfold db_post_conn, pthread_mutex_lock.
  rewrite Hinit, Hh, Hlock, Hfree. cbn -[post_scan].
  rewrite post_scan_none_busy.
  - eexists. split; [reflexivity|]. repeat split.
  - intros j _ Hj. apply (Hnone j). simpl in Hj. exact Hj.
Qed.

Lemma db_post_conn_nothing_lent_witness :
  exists st',
    db_post_conn post_env_ok (Addr 1) open_pool = Returns (-1) st' /\
    err_last st' = Some err_no_busy_slot_bug /\
    mysql_conns st' = mysql_conns open_pool /\
    mysql_conns_busy st' = mysql_conns_busy open_pool /\
    db_sem st' = db_sem open_pool /\
    db_mutex st' = false.
Proof.
  apply (db_post_conn_nothing_lent post_env_ok (Addr 1) open_pool);
    try reflexivity; try (vm_compute; discriminate).
  intros j Hj. unfold DB_POOL_CONN_COUNT in Hj.
  do 8 (destruct j as [|j]; [reflexivity|]). lia.
Defined.

(** ** Before the first db_open *)

Lemma exec_uninitialised (c : call) (st : pool) :
  is_Open c = false -> is_inited st = 0 ->
  exec c st = Returns (match c with GetConn _ => VPtr NULL | _ => VInt (-1) end)
                (set_err_last err_init st).
Proof.
  intros Hc Hinit. destruct c as [e|e|e|e h]; [discriminate| | |]; simpl.
  - unfold db_close. rewrite Hinit. reflexivity.
  - unfold db_get_conn. rewrite Hinit. reflexivity.
  - unfold db_post_conn. rewrite Hinit. reflexivity.
Qed.

(** X6: before the first [db_open] nothing is lent, closed or returned:
    after any sequence of [db_close], [db_get_conn] and [db_post_conn]
    calls from the initial state, whatever their external calls do, the
    pool is the initial pool, with [err_last] set to the not-initialised
    message as soon as one call was made. *)
Theorem nothing_before_open (cs : list call) :
  forallb (fun c => negb (is_Open c)) cs = true ->
  run cs init_pool =
    match cs with
    | [] => init_pool
    | _ :: _ => set_err_last err_init init_pool
    end.
Proof.
  intros Hcs.
  assert (Hrun : forall cs st,
    forallb (fun c => negb (is_Open c)) cs = true ->
    is_inited st = 0 -> set_err_last err_init st = st ->
    run cs st = st).
  { clear. induction cs as [|c cs IH]; intros st Hcs Hinit Hst;
      [reflexivity|].
    simpl in Hcs. apply andb_true_iff in Hcs. destruct Hcs as [Hc Hcs].
    apply negb_true_iff in Hc.
    rewrite run_cons, (exec_uninitialised c st Hc Hinit), Hst.
    apply IH; assumption. }
  destruct cs as [|c cs]; [reflexivity|].
  simpl in Hcs. apply andb_true_iff in Hcs. destruct Hcs as [Hc Hcs].
  apply negb_true_iff in Hc.
  rewrite run_cons, (exec_uninitialised c init_pool Hc eq_refl).
  apply Hrun; [exact Hcs | reflexivity | reflexivity].
Qed.

Lemma nothing_before_open_witness :
  run [GetConn get_env_ok; PostConn post_env_ok (Addr 1); Close close_env_ok]
      init_pool = set_err_last err_init init_pool.
Proof.
  apply (nothing_before_open
           [GetConn get_env_ok; PostConn post_env_ok (Addr 1);
            Close close_env_ok]).
  reflexivity.
Defined.

(** ** db_open: success, reuse and failed pings *)

Lemma set_mysql_conns_id (st : pool) : set_mysql_conns (mysql_conns st) st = st.
Proof. destruct st; reflexivity. Qed.

(** When every empty slot gets its connection and every filled slot
    answers the ping, the filling loop runs to its end and has only
    written the empty slots it went over. *)
Lemma open_fill_succeeds (e : open_env) :
  forall fuel i st,
    (i + fuel <= length (mysql_conns st))%nat ->
    (forall j, (i <= j)%nat -> (j < i + fuel)%nat ->
       if is_null (conn_at st j)
       then attempt_failed (ca_init (oe_connect e j)) (oe_connect e j) = false
       else oe_ping e j = 0) ->
    exists l,
      open_fill e st i fuel = inr (set_mysql_conns l st) /\
      length l = length (mysql_conns st) /\
      (forall j, (i <= j)%nat -> (j < i + fuel)%nat ->
         l !!! j = if is_null (conn_at st j)
                   then ca_init (oe_connect e j) else conn_at st j) /\
      (forall j, (j < i)%nat \/ (i + fuel <= j)%nat ->
         l !!! j = conn_at st j).
Proof.
  induction fuel as [|fuel IH]; intros i st Hlen Hok.
  - exists (mysql_conns st). simpl. rewrite set_mysql_conns_id.
    split; [reflexivity|]. split; [reflexivity|].
    split; [intros; lia | reflexivity].
  - simpl. pose proof (Hok i ltac:(lia) ltac:(lia)) as Hi.
    destruct (is_null (conn_at st i)) eqn:Hnull.
    + rewrite conn_at_set_conn_eq by lia. rewrite Hi.
      destruct (IH (S i) (set_conn i (ca_init (oe_connect e i)) st))
        as (l & Hfill & Hl & Hin & Hout).
      * simpl. rewrite length_insert. lia.
      * intros j Hj1 Hj2. rewrite conn_at_set_conn_ne by lia.
        apply Hok; lia.
      * exists l. split; [exact Hfill|].
        simpl in Hl. rewrite length_insert in Hl. split; [exact Hl|].
        split.
        -- intros j Hj1 Hj2. destruct (decide (j = i)) as [->|Hne].
           ++ rewrite Hout by lia. rewrite Hnull.
              apply conn_at_set_conn_eq. lia.
           ++ rewrite Hin by lia. rewrite conn_at_set_conn_ne by lia.
              reflexivity.
        -- intros j Hj. rewrite Hout by lia.
           apply conn_at_set_conn_ne. lia.
    + rewrite Hi. simpl.
      destruct (IH (S i) st) as (l & Hfill & Hl & Hin & Hout).
      * lia.
      * intros j Hj1 Hj2. apply Hok; lia.
      * exists l. split; [exact Hfill|]. split; [exact Hl|]. split.
        -- intros j Hj1 Hj2. destruct (decide (j = i)) as [->|Hne].
           ++ rewrite Hout by lia. rewrite Hnull. reflexivity.
           ++ apply Hin; lia.
        -- intros j Hj. apply Hout. lia.
Qed.

(** On slots that are all filled the loop only pings: it stops at the
    first slot whose ping fails and writes no slot. *)
Lemma open_fill_ping_fails (e : open_env) (i : nat) :
  forall fuel k st,
    (k <= i)%nat -> (i < k + fuel)%nat ->
    (forall j, (k <= j)%nat -> (j <= i)%nat -> is_null (conn_at st j) = false) ->
    (forall j, (k <= j)%nat -> (j < i)%nat -> oe_ping e j = 0) ->
    oe_ping e i <> 0 ->
    open_fill e st k fuel =
      inl (set_err_last err_reconnect (pthread_mutex_unlock st)).
Proof.
  induction fuel as [|fuel IH]; intros k st Hk Hi Hfilled Hpings Hfail.
  - lia.
  - simpl. rewrite (Hfilled k) by lia.
    destruct (decide (k = i)) as [->|Hne].
    + apply Z.eqb_neq in Hfail. rewrite Hfail. reflexivity.
    + rewrite (Hpings k) by lia. simpl.
      apply IH; [lia | lia | | | exact Hfail].
      * intros j Hj1 Hj2. apply Hfilled; lia.
      * intros j Hj1 Hj2. apply Hpings; lia.
Qed.

Lemma open_fill_pings_ok (e : open_env) :
  forall fuel k st,
    (forall j, (k <= j)%nat -> (j < k + fuel)%nat ->
       is_null (conn_at st j) = false /\ oe_ping e j = 0) ->
    open_fill e st k fuel = inr st.
Proof.
  induction fuel as [|fuel IH]; intros k st Hok; [reflexivity|].
  simpl. destruct (Hok k) as [Hnull Hping]; [lia | lia |].
  rewrite Hnull, Hping. simpl. apply IH.
  intros j Hj1 Hj2. apply Hok; lia.
Qed.

(** The state in which a successful initialisation block hands over. *)
Lemma open_init_succeeds_state (e : open_env) (st : pool) :
  init_succeeds e st ->
  open_init e st =
    inr (if is_inited st =? 0
         then set_is_inited 1
                (set_db_sem (Z.of_nat DB_POOL_CONN_COUNT)
                   (set_db_mutex false (set_is_thread_safe 1 st)))
         else st).
Proof.
  intros Hok. unfold open_init.
  destruct (is_inited st =? 0) eqn:Hinit; [|reflexivity].
  apply Z.eqb_eq in Hinit.
  destruct Hok as [Hok|(Hts & Hlib & Hmx & Hrw & Hsem)]; [congruence|].
  apply Z.eqb_neq in Hts. rewrite Hts, Hlib, Hmx, Hrw, Hsem. reflexivity.
Qed.

(** X7: when the initialisation (if it is still to be done), the mutex,
    the filling of every empty slot, the ping of every filled slot and the
    write lock all succeed, [db_open] returns 0 with [is_open] = 1 and
    [is_closed] = 0; every slot is filled, the empty ones with the new
    connections and the others with the connections they had; no
    connection is closed, no busy flag changes, [err_last] is not reset,
    and the semaphore is set to [DB_POOL_CONN_COUNT] only by the
    initialisation. *)
Theorem db_open_success (e : open_env) (st : pool) :
  pool_wf st ->
  init_succeeds e st ->
  (is_inited st <> 0 -> db_mutex st = false) ->
  oe_mutex_lock e = 0 ->
  (forall j, (j < DB_POOL_CONN_COUNT)%nat ->
     if is_null (conn_at st j)
     then attempt_failed (ca_init (oe_connect e j)) (oe_connect e j) = false
     else oe_ping e j = 0) ->
  oe_wrlock e = 0 ->
  exists st',
    db_open e st = Returns 0 st' /\
    is_open st' = 1 /\ is_closed st' = 0 /\ is_inited st' <> 0 /\
    (forall j, (j < DB_POOL_CONN_COUNT)%nat ->
       conn_at st' j = (if is_null (conn_at st j)
                        then ca_init (oe_connect e j) else conn_at st j) /\
       is_null (conn_at st' j) = false) /\
    mysql_conns_busy st' = mysql_conns_busy st /\
    mysql_closed st' = mysql_closed st /\
    err_last st' = err_last st /\
    db_mutex st' = false /\
    db_sem st' = (if is_inited st =? 0
                  then Z.of_nat DB_POOL_CONN_COUNT else db_sem st).
Proof.
  intros [Hlen _] Hinit Hmutex Hlock Hslots Hwr.
  pose proof (open_init_succeeds_state e st Hinit) as Hst0.
  set (st0 := if is_inited st =? 0
              then set_is_inited 1
                     (set_db_sem (Z.of_nat DB_POOL_CONN_COUNT)
                        (set_db_mutex false (set_is_thread_safe 1 st)))
              else st) in *.
  assert (Hfree : db_mutex st0 = false).
  { subst st0. destruct (is_inited st =? 0) eqn:Hi; [reflexivity|].
    apply Hmutex, Z.eqb_neq, Hi. }
  assert (Hconns0 : mysql_conns st0 = mysql_conns st).
  { subst st0. destruct (is_inited st =? 0); reflexivity. }
  destruct (open_fill_succeeds e DB_POOL_CONN_COUNT 0 (set_db_mutex true st0))
    as (l & Hfill & Hl & Hin & _).
  { simpl. rewrite Hconns0, Hlen. lia. }
  { intros j _ Hj. unfold conn_at. simpl. rewrite Hconns0.
    apply (Hslots j). simpl in Hj. exact Hj. }
  assert (Hat : forall j, (j < DB_POOL_CONN_COUNT)%nat ->
    l !!! j = (if is_null (conn_at st j)
               then ca_init (oe_connect e j) else conn_at st j)).
  { intros j Hj. rewrite Hin by (simpl; lia).
    unfold conn_at. simpl. rewrite Hconns0. reflexivity. }
  eexists. split.
  { unfold db_open, pthread_mutex_lock.
    rewrite Hst0, Hlock, Hfree.
    cbn -[open_fill]. rewrite Hfill, Hwr. reflexivity. }
  unfold conn_at. simpl.
  split; [reflexivity|]. split; [reflexivity|].
  split.
  { subst st0. destruct (is_inited st =? 0) eqn:Hi; simpl;
      [discriminate | apply Z.eqb_neq; exact Hi]. }
  split.
  { intros j Hj. rewrite (Hat j Hj). split; [reflexivity|].
    specialize (Hslots j Hj).
    destruct (is_null (conn_at st j)) eqn:Hnull; [|exact Hnull].
    apply attempt_failed_false in Hslots. apply is_null_false, Hslots. }
  subst st0. destruct (is_inited st =? 0); repeat split.
Qed.

Lemma db_open_success_witness :
  exists st',
    db_open open_env_ok init_pool = Returns 0 st' /\
    is_open st' = 1 /\ is_closed st' = 0 /\ is_inited st' <> 0 /\
    (forall j, (j < DB_POOL_CONN_COUNT)%nat ->
       conn_at st' j = (if is_null (conn_at init_pool j)
                        then ca_init (oe_connect open_env_ok j)
                        else conn_at init_pool j) /\
       is_null (conn_at st' j) = false) /\
    mysql_conns_busy st' = mysql_conns_busy init_pool /\
    mysql_closed st' = mysql_closed init_pool /\
    err_last st' = err_last init_pool /\
    db_mutex st' = false /\
    db_sem st' = (if is_inited init_pool =? 0
                  then Z.of_nat DB_POOL_CONN_COUNT else db_sem init_pool).
Proof.
  apply (db_open_success open_env_ok init_pool).
  - exact pool_wf_init.
  - right. repeat split; discriminate.
  - intros _. reflexivity.
  - reflexivity.
  - intros j Hj. unfold DB_POOL_CONN_COUNT in Hj.
    do 8 (destruct j as [|j]; [reflexivity|]). lia.
  - reflexivity.
Defined.

Lemma reopen_state (st : pool) :
  is_open st = 1 -> is_closed st = 0 -> db_mutex st = false ->
  pthread_mutex_unlock
    (pthread_rwlock_unlock
       (set_is_closed 0
          (set_is_open 1
             (set_db_mutex true (set_is_closed 1 (set_is_open 0 st)))))) = st.
Proof. destruct st; simpl; intros -> -> ->; reflexivity. Qed.

(** X8: on an open pool with every slot filled and none busy, a
    [db_close] followed by a [db_open] (locks obtained, pings answered)
    both return 0 and give back exactly the pool there was: the same
    connections in the same slots, none closed and none created, and the
    semaphore as it was. *)
Theorem close_open_round_trip (ce : close_env) (oe : open_env) (st : pool) :
  is_inited st <> 0 -> is_open st = 1 -> is_closed st = 0 ->
  db_mutex st = false ->
  ce_wrlock ce = 0 -> (forall j, ce_mutex_lock ce 0 j = 0) ->
  (forall j, (j < DB_POOL_CONN_COUNT)%nat ->
     busy_at st j <> 1 /\ is_null (conn_at st j) = false) ->
  oe_mutex_lock oe = 0 ->
  (forall j, (j < DB_POOL_CONN_COUNT)%nat -> oe_ping oe j = 0) ->
  oe_wrlock oe = 0 ->
  exists st1,
    db_close ce st = Returns 0 st1 /\
    is_open st1 = 0 /\ is_closed st1 = 1 /\
    db_open oe st1 = Returns 0 st.
Proof.
  intros Hinit Hopen Hclosed Hfree Hwr Hlocks Hslots Hlock Hpings Hwr2.
  exists (set_is_closed 1 (set_is_open 0 st)).
  split.
  { apply db_close_returns; try assumption.
    intros j Hj. apply (Hslots j Hj). }
  split; [reflexivity|]. split; [reflexivity|].
  apply Z.eqb_neq in Hinit.
  unfold db_open, open_init, pthread_mutex_lock.
  cbn [is_inited set_is_closed set_is_open]. rewrite Hinit, Hlock.
  cbn [negb Z.eqb db_mutex set_is_closed set_is_open]. rewrite Hfree.
  rewrite open_fill_pings_ok.
  - rewrite Hwr2. cbn [negb Z.eqb]. rewrite (reopen_state st) by assumption.
    reflexivity.
  - intros j _ Hj. split; [apply (Hslots j Hj) | apply (Hpings j Hj)].
Qed.

Lemma close_open_round_trip_witness :
  exists st1,
    db_close close_env_ok open_pool = Returns 0 st1 /\
    is_open st1 = 0 /\ is_closed st1 = 1 /\
    db_open open_env_ok st1 = Returns 0 open_pool.
Proof.
  apply (close_open_round_trip close_env_ok open_env_ok open_pool);
    try reflexivity; try discriminate.
  intros j Hj. unfold DB_POOL_CONN_COUNT in Hj.
  do 8 (destruct j as [|j]; [split; [discriminate | reflexivity]|]). lia.
Defined.

(** X9: on an initialised pool whose slots [0..i] are filled, when the
    pings of slots [0..i-1] are answered and the ping of slot [i] fails,
    [db_open] returns -1 and has only set [err_last] to the reconnect
    message: no connection is closed or cleared, and [is_open] and
    [is_closed] are as they were, so a pool that was open still reads
    open. *)
Theorem db_open_ping_failure (e : open_env) (st : pool) (i : nat) :
  is_inited st <> 0 -> db_mutex st = false -> oe_mutex_lock e = 0 ->
  (i < DB_POOL_CONN_COUNT)%nat ->
  (forall j, (j <= i)%nat -> is_null (conn_at st j) = false) ->
  (forall j, (j < i)%nat -> oe_ping e j = 0) ->
  oe_ping e i <> 0 ->
  db_open e st = Returns (-1) (set_err_last err_reconnect st).
Proof.
  intros Hinit Hfree Hlock Hi Hfilled Hpings Hfail.
  apply Z.eqb_neq in Hinit.
  unfold db_open, open_init, pthread_mutex_lock.
  rewrite Hinit, Hlock, Hfree. cbn [negb Z.eqb].
  rewrite (open_fill_ping_fails e i); [| lia | simpl; lia | | | exact Hfail].
  - rewrite (mutex_lock_unlock st Hfree). reflexivity.
  - intros j _ Hj. apply (Hfilled j Hj).
  - intros j _ Hj. apply (Hpings j Hj).
Qed.

(** The open pool is opened again and the ping of the third slot
    fails. *)
Lemma db_open_ping_failure_witness :
  db_open (mk_open_env 1 0 0 0 0 0 (oe_connect open_env_ok)
             (fun j => if (j =? 2)%nat then 1 else 0) 0) open_pool =
    Returns (-1) (set_err_last err_reconnect open_pool).
Proof.
  apply (db_open_ping_failure _ open_pool 2);
    try reflexivity; try discriminate.
  - unfold DB_POOL_CONN_COUNT. lia.
  - intros j Hj. destruct j as [|[|[|j]]]; [reflexivity .. | lia].
  - intros j Hj. destruct j as [|[|j]]; [reflexivity .. | lia].
Defined.

(** X10: when a step of the first initialisation fails, [db_open]
    returns -1 before it takes the mutex: [is_inited] stays 0, so the next
    [db_open] initialises again, and the slots, the flags, the semaphore
    and the log of closed connections are untouched.  When the library is
    not thread-safe [err_last] is left alone and [is_thread_safe] is 0;
    otherwise [is_thread_safe] is 1 and [err_last] names an
    initialisation step. *)
Theorem db_open_init_failure (e : open_env) (st : pool) :
  is_inited st = 0 ->
  oe_thread_safe e = 0 \/ oe_library_init e <> 0 \/ oe_mutex_init e <> 0 \/
  oe_rwlock_init e <> 0 \/ oe_sem_init e <> 0 ->
  exists st',
    db_open e st = Returns (-1) st' /\
    is_inited st' = 0 /\
    mysql_conns st' = mysql_conns st /\
    mysql_conns_busy st' = mysql_conns_busy st /\
    mysql_closed st' = mysql_closed st /\
    db_sem st' = db_sem st /\
    is_open st' = is_open st /\ is_closed st' = is_closed st /\
    (if oe_thread_safe e =? 0
     then is_thread_safe st' = 0 /\ err_last st' = err_last st
     else is_thread_safe st' = 1 /\
          exists m, err_last st' = Some m /\
            m ∈ [err_init_lib; err_init_mutex; err_init_rwlock;
                 err_init_semaphore]).
Proof.
  intros Hinit Hfail.
  assert (Hinl : exists st0,
    open_init e st = inl st0 /\
    is_inited st0 = 0 /\
    mysql_conns st0 = mysql_conns st /\
    mysql_conns_busy st0 = mysql_conns_busy st /\
    mysql_closed st0 = mysql_closed st /\
    db_sem st0 = db_sem st /\
    is_open st0 = is_open st /\ is_closed st0 = is_closed st /\
    (if oe_thread_safe e =? 0
     then is_thread_safe st0 = 0 /\ err_last st0 = err_last st
     else is_thread_safe st0 = 1 /\
          exists m, err_last st0 = Some m /\
            m ∈ [err_init_lib; err_init_mutex; err_init_rwlock;
                 err_init_semaphore])).
  { unfold open_init, pthread_mutex_destroy, pthread_rwlock_destroy.
    rewrite Hinit. cbn [Z.eqb].
    destruct (oe_thread_safe e =? 0) eqn:Hts.
    { eexists. split; [reflexivity|]. repeat split; assumption. }
    destruct (oe_library_init e =? 0) eqn:Hlib; cbn [negb].
    2:{ eexists. split; [reflexivity|]. repeat split; try assumption.
        eexists. split; [reflexivity|]. solve [repeat constructor]. }
    destruct (oe_mutex_init e =? 0) eqn:Hmx; cbn [negb].
    2:{ eexists. split; [reflexivity|]. repeat split; try assumption.
        eexists. split; [reflexivity|]. solve [repeat constructor]. }
    destruct (oe_rwlock_init e =? 0) eqn:Hrw; cbn [negb].
    2:{ eexists. split; [reflexivity|]. repeat split; try assumption.
        eexists. split; [reflexivity|]. solve [repeat constructor]. }
    destruct (oe_sem_init e =? 0) eqn:Hsem; cbn [negb].
    2:{ eexists. split; [reflexivity|]. repeat split; try assumption.
        eexists. split; [reflexivity|]. solve [repeat constructor]. }
    exfalso.
    apply Z.eqb_neq in Hts. apply Z.eqb_eq in Hlib, Hmx, Hrw, Hsem.
    destruct Hfail as [H|[H|[H|[H|H]]]]; congruence. }
  destruct Hinl as (st0 & Hinl & Hprops).
  exists st0. split; [|exact Hprops].
  unfold db_open. rewrite Hinl. reflexivity.
Qed.

(** The semaphore cannot be initialised. *)
Lemma db_open_init_failure_witness :
  exists st',
    db_open (mk_open_env 1 0 0 0 1 0 (oe_connect open_env_ok)
               (fun _ => 0) 0) init_pool = Returns (-1) st' /\
    is_inited st' = 0 /\
    mysql_conns st' = mysql_conns init_pool /\
    mysql_conns_busy st' = mysql_conns_busy init_pool /\
    mysql_closed st' = mysql_closed init_pool /\
    db_sem st' = db_sem init_pool /\
    is_open st' = is_open init_pool /\ is_closed st' = is_closed init_pool /\
    (is_thread_safe st' = 1 /\
     exists m, err_last st' = Some m /\
       m ∈ [err_init_lib; err_init_mutex; err_init_rwlock;
            err_init_semaphore]).
Proof.
  apply (db_open_init_failure
           (mk_open_env 1 0 0 0 1 0 (oe_connect open_env_ok) (fun _ => 0) 0)
           init_pool).
  - reflexivity.
  - right. right. right. right. discriminate.
Defined.

(** ** Once initialised *)

(** On an initialised pool [db_open] skips the initialisation: it writes
    the connections, the log of closed connections, [err_last], the mutex
    and the two state flags, and nothing else. *)
Lemma db_open_inited_frame {A : Type} (f : pool -> A) (e : open_env)
    (st : pool) :
  (forall l st, f (set_mysql_conns l st) = f st) ->
  (forall l st, f (set_mysql_closed l st) = f st) ->
  (forall m st, f (set_err_last m st) = f st) ->
  (forall b st, f (set_db_mutex b st) = f st) ->
  (forall v st, f (set_is_open v st) = f st) ->
  (forall v st, f (set_is_closed v st) = f st) ->
  is_inited st <> 0 ->
  f (state_of (db_open e st)) = f st.
Proof.
  intros Hconns Hclosed Herr Hmutex Hopen Hcl Hinit.
  apply Z.eqb_neq in Hinit.
  unfold db_open, open_init, pthread_mutex_lock. rewrite Hinit.
  destruct (negb (oe_mutex_lock e =? 0)); [apply Herr|].
  destruct (db_mutex st); [reflexivity|].
  destruct (open_fill e _ 0 DB_POOL_CONN_COUNT) as [st1|st1] eqn:Hfill.
  - simpl.
    rewrite (open_fill_frame f e Hconns Hclosed Herr Hmutex _ _ _ _
               (or_introl Hfill)).
    apply Hmutex.
  - assert (H1 : f st1 = f st).
    { rewrite (open_fill_frame f e Hconns Hclosed Herr Hmutex _ _ _ _
                 (or_intror Hfill)).
      apply Hmutex. }
    destruct (negb (oe_wrlock e =? 0)); simpl.
    + rewrite Herr. unfold pthread_mutex_unlock. rewrite Hmutex. exact H1.
    + unfold pthread_mutex_unlock, pthread_rwlock_unlock.
      rewrite Hmutex, Hcl, Hopen. exact H1.
Qed.

Lemma exec_inited (c : call) (st : pool) :
  is_inited st <> 0 ->
  is_inited (state_of (exec c st)) = is_inited st /\
  is_thread_safe (state_of (exec c st)) = is_thread_safe st.
Proof.
  intros Hinit. destruct c as [e|e|e|e h]; simpl;
    rewrite state_of_outcome_map.
  - split; apply db_open_inited_frame; auto.
  - split; apply db_close_frame; auto.
  - split; apply db_get_conn_frame; auto.
  - split; apply db_post_conn_frame; auto.
Qed.

(** X11: once [is_inited] is set, no sequence of calls, whatever their
    external calls do, writes [is_inited] or [is_thread_safe] again. *)
Theorem inited_for_good (cs : list call) (st : pool) :
  is_inited st <> 0 ->
  is_inited (run cs st) = is_inited st /\
  is_thread_safe (run cs st) = is_thread_safe st.
Proof.
  revert st. induction cs as [|c cs IH]; intros st Hinit;
    [split; reflexivity|].
  rewrite run_cons. destruct (exec_inited c st Hinit) as [Hi Ht].
  destruct (exec c st) as [v st'|st']; simpl in Hi, Ht.
  - destruct (IH st') as [Hi' Ht']; [congruence|].
    split; congruence.
  - split; assumption.
Qed.

Lemma inited_for_good_witness :
  is_inited
    (run [GetConn get_env_rdlock_fails; Close close_env_ok;
          Open open_env_third_fails] open_pool) = is_inited open_pool /\
  is_thread_safe
    (run [GetConn get_env_rdlock_fails; Close close_env_ok;
          Open open_env_third_fails] open_pool) = is_thread_safe open_pool.
Proof.
  apply (inited_for_good
           [GetConn get_env_rdlock_fails; Close close_env_ok;
            Open open_env_third_fails] open_pool).
  discriminate.
Defined.

(** ** db_close: twice, drained, and with a handle still lent *)

(** X12: [db_close] is idempotent: after a [db_close] that returned 0,
    another [db_close] whose write lock is obtained returns 0 at once and
    changes nothing. *)
Theorem db_close_idempotent (e1 e2 : close_env) (st st' : pool) :
  db_close e1 st = Returns 0 st' ->
  ce_wrlock e2 = 0 ->
  db_close e2 st' = Returns 0 st'.
Proof.
  intros Hres Hwr.
  assert (Hinit : is_inited st <> 0).
  { intros H0. unfold db_close in Hres. rewrite H0 in Hres. discriminate. }
  assert (Hinit' : is_inited st' <> 0).
  { pose proof (db_close_frame is_inited e1 st) as H. rewrite Hres in H.
    simpl in H. rewrite H by auto. exact Hinit. }
  assert (Hclosed' : is_closed st' <> 0).
  { destruct (Z.eq_dec (is_closed st) 0) as [H0|Hne].
    - destruct (db_close_not_open e1 st st' Hinit H0 Hres) as (_ & -> & _).
      discriminate.
    - pose proof (db_close_flags e1 st) as H. rewrite Hres in H. simpl in H.
      destruct H as [[_ ->]|[_ ->]]; [exact Hne | discriminate]. }
  apply Z.eqb_neq in Hinit', Hclosed'.
  unfold db_close. rewrite Hinit', Hwr, Hclosed'. reflexivity.
Qed.

Lemma db_close_idempotent_witness :
  db_close close_env_ok closed_pool = Returns 0 closed_pool.
Proof.
  apply (db_close_idempotent close_env_ok close_env_ok open_pool closed_pool).
  - vm_compute. reflexivity.
  - reflexivity.
Defined.

(** X13: a [db_close] of an initialised pool that is not yet closed
    returns 0 only after a pass of the drain loop that found no slot with
    its busy flag at 1; the pool then reads closed ([is_open] = 0,
    [is_closed] = 1), and its slots still hold the connections they
    held. *)
Theorem db_close_returns_drained (e : close_env) (st st' : pool) :
  is_closed st = 0 ->
  db_close e st = Returns 0 st' ->
  is_open st' = 0 /\ is_closed st' = 1 /\
  mysql_conns st' = mysql_conns st /\
  mysql_conns_busy st' = mysql_conns_busy st /\
  forall j, (j < DB_POOL_CONN_COUNT)%nat -> (busy_at st' j =? 1) = false.
Proof.
  intros Hclosed Hres.
  assert (Hinit : is_inited st <> 0).
  { intros H0. unfold db_close in Hres. rewrite H0 in Hres. discriminate. }
  destruct (db_close_not_open e st st' Hinit Hclosed Hres)
    as (Ho & Hc & _ & Hidle).
  pose proof (db_close_frame mysql_conns e st) as Hconns.
  pose proof (db_close_frame mysql_conns_busy e st) as Hbusy.
  rewrite Hres in Hconns, Hbusy. simpl in Hconns, Hbusy.
  split; [exact Ho|]. split; [exact Hc|].
  split; [apply Hconns; auto|]. split; [apply Hbusy; auto|].
  intros j Hj. apply Z.eqb_neq. unfold busy_at.
  rewrite Hbusy by auto. apply (Hidle j Hj).
Qed.

Lemma db_close_returns_drained_witness :
  is_open closed_pool = 0 /\ is_closed closed_pool = 1 /\
  mysql_conns closed_pool = mysql_conns open_pool /\
  mysql_conns_busy closed_pool = mysql_conns_busy open_pool /\
  forall j, (j < DB_POOL_CONN_COUNT)%nat ->
    (busy_at closed_pool j =? 1) = false.
Proof.
  apply (db_close_returns_drained close_env_ok open_pool closed_pool).
  - reflexivity.
  - vm_compute. reflexivity.
Defined.

Lemma first_busy_below (st : pool) :
  forall n,
    (forall j, (j < n)%nat -> busy_at st j <> 1) \/
    (exists i0, (i0 < n)%nat /\ busy_at st i0 = 1 /\
       forall j, (j < i0)%nat -> busy_at st j <> 1).
Proof.
  induction n as [|n [Hnone|(i0 & Hlt & Hbusy & Hfirst)]].
  - left. intros j Hj. lia.
  - destruct (Z.eq_dec (busy_at st n) 1) as [Hn|Hn].
    + right. exists n. split; [lia|]. split; assumption.
    + left. intros j Hj. destruct (decide (j = n)) as [->|Hne];
        [exact Hn | apply Hnone; lia].
  - right. exists i0. split; [lia|]. split; assumption.
Qed.

Lemma first_busy_slot (st : pool) :
  forall i, busy_at st i = 1 ->
    exists i0, (i0 <= i)%nat /\ busy_at st i0 = 1 /\
      forall j, (j < i0)%nat -> busy_at st j <> 1.
Proof.
  intros i Hi.
  destruct (first_busy_below st (S i)) as [Hnone|(i0 & Hlt & Hbusy & Hfirst)].
  - exfalso. apply (Hnone i); [lia | exact Hi].
  - exists i0. split; [lia|]. split; assumption.
Qed.

(** With the mutex free and obtained at every slot, a pass that meets a
    slot with its busy flag at 1 takes a permit and ends with [ready] at
    0, or waits when there is no permit. *)
Lemma close_pass_busy (e : close_env) (p : nat) (st : pool) (i0 : nat) :
  db_mutex st = false ->
  (forall j, ce_mutex_lock e p j = 0) -> ce_sem_wait e p = 0 ->
  busy_at st i0 = 1 ->
  forall fuel ready i,
    (i <= i0)%nat -> (i0 < i + fuel)%nat ->
    (forall j, (i <= j)%nat -> (j < i0)%nat -> busy_at st j <> 1) ->
    close_pass e p ready st i fuel =
      if 0 <? db_sem st then PassEnd 0 (set_db_sem (db_sem st - 1) st)
      else PassBlocks st.
Proof.
  intros Hfree Hlock Hwait Hbusy.
  induction fuel as [|fuel IH]; intros ready i Hi Hi0 Hfirst; [lia|].
  simpl. unfold pthread_mutex_lock. rewrite Hlock, Hfree. simpl.
  unfold busy_at in *. simpl.
  destruct (decide (i = i0)) as [->|Hne].
  - rewrite Hbusy. simpl. rewrite (mutex_lock_unlock st Hfree).
    unfold sem_wait. rewrite Hwait. simpl.
    destruct (0 <? db_sem st); reflexivity.
  - assert (Hi1 : mysql_conns_busy st !!! i <> 1)
      by (apply Hfirst; lia).
    apply Z.eqb_neq in Hi1. rewrite Hi1.
    rewrite (mutex_lock_unlock st Hfree).
    apply IH; [lia | lia |]. intros j Hj1 Hj2. apply Hfirst; lia.
Qed.

Lemma set_db_sem_id (st : pool) (n : Z) :
  db_sem st = n -> set_db_sem n st = st.
Proof. destruct st; simpl; intros ->; reflexivity. Qed.

Lemma close_drain_busy (e : close_env) (i0 : nat) :
  (forall p j, ce_mutex_lock e p j = 0) -> (forall p, ce_sem_wait e p = 0) ->
  (i0 < DB_POOL_CONN_COUNT)%nat ->
  forall (n : nat) (st : pool) (p fuel : nat),
    db_sem st = Z.of_nat n -> (n < fuel)%nat ->
    db_mutex st = false ->
    busy_at st i0 = 1 -> (forall j, (j < i0)%nat -> busy_at st j <> 1) ->
    close_drain e st p fuel = Some (Blocks (set_db_sem 0 st)).
Proof.
  intros Hlock Hwait Hi0.
  induction n as [|n IH]; intros st p fuel Hsem Hfuel Hfree Hbusy Hfirst;
    (destruct fuel as [|fuel]; [lia|]); cbn [close_drain];
    rewrite (close_pass_busy e p st i0 Hfree (Hlock p) (Hwait p) Hbusy);
    try lia; try (intros j _ Hj; apply (Hfirst j Hj)).
  - rewrite Hsem. simpl. rewrite (set_db_sem_id st 0 Hsem). reflexivity.
  - assert (Hpos : (0 <? db_sem st) = true) by (apply Z.ltb_lt; lia).
    rewrite Hpos. cbn [Z.eqb].
    rewrite (IH (set_db_sem (db_sem st - 1) st)); try assumption.
    + reflexivity.
    + simpl. lia.
    + lia.
Qed.

(** X14: a [db_close] of an initialised, not yet closed pool in which a
    slot has its busy flag at 1 does not return while no handle is given
    back (locks obtained, [sem_wait] not failing): it marks the pool
    closed, then takes every permit the semaphore has, one per pass of
    the drain loop, and waits with the semaphore at 0. *)
Theorem db_close_while_lent (e : close_env) (st : pool) (i : nat) :
  is_inited st <> 0 -> is_closed st = 0 -> ce_wrlock e = 0 ->
  db_mutex st = false ->
  (forall p j, ce_mutex_lock e p j = 0) -> (forall p, ce_sem_wait e p = 0) ->
  0 <= db_sem st ->
  (i < DB_POOL_CONN_COUNT)%nat -> busy_at st i = 1 ->
  db_close e st = Blocks (set_db_sem 0 (set_is_closed 1 (set_is_open 0 st))).
Proof.
  intros Hinit Hclosed Hwr Hfree Hlock Hwait Hsem Hi Hbusy.
  destruct (first_busy_slot st i Hbusy) as (i0 & Hle & Hbusy0 & Hfirst).
  apply Z.eqb_neq in Hinit.
  unfold db_close, pthread_rwlock_unlock. rewrite Hinit, Hwr, Hclosed.
  cbn [negb Z.eqb].
  rewrite (close_drain_busy e i0 Hlock Hwait ltac:(lia)
             (Z.to_nat (db_sem st))); try assumption.
  - reflexivity.
  - simpl. lia.
  - simpl. lia.
Qed.

Lemma db_close_while_lent_witness :
  db_close close_env_ok one_lent_pool =
    Blocks (set_db_sem 0 (set_is_closed 1 (set_is_open 0 one_lent_pool))).
Proof.
  apply (db_close_while_lent close_env_ok one_lent_pool 0);
    try reflexivity; try discriminate.
  unfold DB_POOL_CONN_COUNT. lia.
Defined.

(** ** db_is_open and db_is_closed *)

(** From the initial state, a pool that reads open is initialised. *)
Lemma exec_open_inited (c : call) (st : pool) :
  (is_inited st = 0 -> is_open st = 0 /\ is_closed st = 1) ->
  is_inited (state_of (exec c st)) = 0 ->
  is_open (state_of (exec c st)) = 0 /\ is_closed (state_of (exec c st)) = 1.
Proof.
  intros Hinv Hinit'.
  destruct (Z.eq_dec (is_inited st) 0) as [Hinit|Hinit].
  - destruct (Hinv Hinit) as [Ho Hc].
    destruct c as [e|e|e|e h]; simpl in *;
      rewrite state_of_outcome_map in *.
    + destruct (db_open_flags e st) as [[-> ->]|[Ho' Hc']];
        [split; assumption|].
      exfalso. revert Hinit' Ho'.
      unfold db_open, pthread_mutex_lock.
      destruct (open_init e st) as [st0|st0] eqn:Hi.
      * simpl. intros _ Ho'.
        rewrite (open_init_frame is_open e) with (st := st) in Ho' by auto.
        congruence.
      * assert (Hi0 : is_inited st0 <> 0).
        { unfold open_init in Hi. rewrite Hinit in Hi. simpl in Hi.
          repeat match type of Hi with
          | context [if ?c then _ else _] => destruct c
          end; try discriminate.
          injection Hi as <-. discriminate. }
        destruct (negb (oe_mutex_lock e =? 0)); [simpl; congruence|].
        destruct (db_mutex st0); [simpl; congruence|].
        destruct (open_fill e _ 0 DB_POOL_CONN_COUNT) as [st1|st1] eqn:Hfill.
        -- simpl. intros H1 _. apply Hi0. rewrite <- H1. symmetry.
           apply (open_fill_frame is_inited e) with
             (st := set_db_mutex true st0) (i := 0%nat)
             (fuel := DB_POOL_CONN_COUNT); auto.
        -- assert (H1 : is_inited st1 = is_inited st0).
           { apply (open_fill_frame is_inited e) with
               (st := set_db_mutex true st0) (i := 0%nat)
               (fuel := DB_POOL_CONN_COUNT); auto. }
           destruct (negb (oe_wrlock e =? 0)); simpl; congruence.
    + rewrite (db_close_frame is_inited) in Hinit' by auto.
      unfold db_close. rewrite Hinit. simpl. split; assumption.
    + rewrite (db_get_conn_frame is_open), (db_get_conn_frame is_closed)
        by auto. split; assumption.
    + rewrite (db_post_conn_frame is_open), (db_post_conn_frame is_closed)
        by auto. split; assumption.
  - exfalso. destruct (exec_inited c st Hinit) as [Hi _]. congruence.
Qed.

Lemma run_open_inited (cs : list call) :
  forall st,
    (is_inited st = 0 -> is_open st = 0 /\ is_closed st = 1) ->
    is_inited (run cs st) = 0 ->
    is_open (run cs st) = 0 /\ is_closed (run cs st) = 1.
Proof.
  induction cs as [|c cs IH]; intros st Hinv; [exact Hinv|].
  rewrite run_cons. pose proof (exec_open_inited c st Hinv) as Hstep.
  destruct (exec c st) as [v st'|st']; simpl in Hstep; auto.
Qed.

(** X15: after any sequence of calls from the initial state, whatever
    their external calls do, [db_is_open] and [db_is_closed] (read lock
    obtained) change nothing and return 0 and 1, or 1 and 0: the pair
    never reads open and closed at once, nor neither. *)
Theorem is_open_xor_is_closed (cs : list call) :
  exists v1 v2,
    db_is_open 0 (run cs init_pool) = Returns v1 (run cs init_pool) /\
    db_is_closed 0 (run cs init_pool) = Returns v2 (run cs init_pool) /\
    ((v1 = 0 /\ v2 = 1) \/ (v1 = 1 /\ v2 = 0)).
Proof.
  pose proof (run_lifecycle_ok cs init_pool
                (or_introl (conj eq_refl eq_refl))) as Hok.
  pose proof (run_open_inited cs init_pool (fun _ => conj eq_refl eq_refl))
    as Huninit.
  unfold db_is_open, db_is_closed, pthread_rwlock_unlock.
  destruct (is_inited (run cs init_pool) =? 0) eqn:Hinit.
  - exists 0, 1. repeat split. left. split; reflexivity.
  - exists (is_open (run cs init_pool)), (is_closed (run cs init_pool)).
    repeat split. exact Hok.
Qed.

(** ** A permit is a free slot *)

(** After the initialisation block, [db_open] goes on as it does on the
    initialised pool the block hands over. *)
Lemma open_init_inr_inited (e : open_env) (st st0 : pool) :
  open_init e st = inr st0 -> is_inited st0 <> 0.
Proof.
  unfold open_init. destruct (is_inited st =? 0) eqn:Hinit.
  - intros H.
    repeat match type of H with
    | context [if ?c then _ else _] => destruct c
    end; try discriminate.
    injection H as <-. discriminate.
  - intros H. injection H as <-. apply Z.eqb_neq. exact Hinit.
Qed.

Lemma db_open_after_init (e : open_env) (st st0 : pool) :
  open_init e st = inr st0 -> db_open e st = db_open e st0.
Proof.
  intros Hinit. pose proof (open_init_inr_inited e st st0 Hinit) as H0.
  apply Z.eqb_neq in H0.
  unfold db_open. rewrite Hinit. unfold open_init. rewrite H0. reflexivity.
Qed.

(** [db_open] writes no busy flag, and writes the semaphore only when it
    initialises it. *)
Lemma db_open_busy_sem (e : open_env) (st : pool) :
  mysql_conns_busy (state_of (db_open e st)) = mysql_conns_busy st /\
  (db_sem (state_of (db_open e st)) = db_sem st \/
   (is_inited st = 0 /\
    db_sem (state_of (db_open e st)) = Z.of_nat DB_POOL_CONN_COUNT)).
Proof.
  destruct (open_init e st) as [st0|st0] eqn:Hinit.
  - unfold db_open. rewrite Hinit. simpl. split.
    + apply (open_init_frame mysql_conns_busy e); auto.
    + left. revert Hinit. unfold open_init,
        pthread_mutex_destroy, pthread_rwlock_destroy.
      intros H.
      repeat match type of H with
      | context [if ?c then _ else _] => destruct c
      end; try discriminate; injection H as <-; reflexivity.
  - rewrite (db_open_after_init e st st0 Hinit).
    pose proof (open_init_inr_inited e st st0 Hinit) as H0.
    rewrite (db_open_inited_frame mysql_conns_busy e st0) by auto.
    rewrite (db_open_inited_frame db_sem e st0) by auto.
    split; [apply (open_init_frame mysql_conns_busy e); auto|].
    revert Hinit. unfold open_init.
    destruct (is_inited st =? 0) eqn:Hi.
    + intros H. right. split; [apply Z.eqb_eq; exact Hi|].
      repeat match type of H with
      | context [if ?c then _ else _] => destruct c
      end; try discriminate. injection H as <-. reflexivity.
    + intros H. injection H as <-. left. reflexivity.
Qed.

(** A pass of the drain loop leaves the semaphore or takes one permit from
    it. *)
Lemma close_pass_sem (e : close_env) :
  forall fuel p ready st i,
    0 <= db_sem st ->
    0 <= db_sem (pass_state (close_pass e p ready st i fuel)) <= db_sem st.
Proof.
  induction fuel as [|fuel IH]; intros p ready st i Hsem; simpl.
  - lia.
  - unfold pthread_mutex_lock, pthread_mutex_unlock, sem_wait.
    destruct (negb (ce_mutex_lock e p i =? 0)); simpl; [lia|].
    destruct (db_mutex st); simpl; [lia|].
    destruct (busy_at _ i =? 1).
    + destruct (negb (ce_sem_wait e p =? 0)); simpl; [lia|].
      destruct (0 <? db_sem st) eqn:Hpos; simpl; [|lia].
      apply Z.ltb_lt in Hpos. lia.
    + specialize (IH p 1 (set_db_mutex false (set_db_mutex true st)) (S i)).
      simpl in IH. apply IH. exact Hsem.
Qed.

Lemma close_drain_sem (e : close_env) :
  forall fuel p st o,
    0 <= db_sem st -> close_drain e st p fuel = Some o ->
    0 <= db_sem (state_of o) <= db_sem st.
Proof.
  induction fuel as [|fuel IH]; intros p st o Hsem Hres;
    cbn [close_drain] in Hres; [discriminate|].
  pose proof (close_pass_sem e DB_POOL_CONN_COUNT p 0 st 0%nat Hsem) as Hpass.
  destruct (close_pass e p 0 st 0 DB_POOL_CONN_COUNT) as [r st1|v st1|st1];
    simpl in Hpass.
  - destruct (r =? 0).
    + assert (H1 : 0 <= db_sem st1) by lia.
      pose proof (IH _ _ _ H1 Hres). lia.
    + injection Hres as <-. exact Hpass.
  - injection Hres as <-. exact Hpass.
  - injection Hres as <-. exact Hpass.
Qed.

Lemma db_close_sem (e : close_env) (st : pool) :
  0 <= db_sem st ->
  0 <= db_sem (state_of (db_close e st)) <= db_sem st.
Proof.
  intros Hsem. unfold db_close, pthread_rwlock_unlock.
  destruct (is_inited st =? 0); [simpl; lia|].
  destruct (negb (ce_wrlock e =? 0)); [simpl; lia|].
  destruct (negb (is_closed st =? 0)); [simpl; lia|].
  destruct (close_drain e _ 0 _) as [o|] eqn:Hdrain; [|simpl; lia].
  apply (close_drain_sem e _ _ (set_is_closed 1 (set_is_open 0 st)) _ Hsem)
    in Hdrain. exact Hdrain.
Qed.

(** What [db_get_conn] does to the flags and the semaphore: it leaves
    the flags and leaves the semaphore or keeps one permit, or it sets
    the flag of one free slot and keeps one permit. *)
Lemma db_get_conn_cases (e : get_env) (st : pool) :
  pool_wf st -> open_filled st ->
  (mysql_conns_busy (state_of (db_get_conn e st)) = mysql_conns_busy st /\
   (db_sem (state_of (db_get_conn e st)) = db_sem st \/
    (0 < db_sem st /\
     db_sem (state_of (db_get_conn e st)) = db_sem st - 1))) \/
  (exists i,
     mysql_conns_busy st !! i = Some 0 /\
     mysql_conns_busy (state_of (db_get_conn e st)) =
       <[i:=1]> (mysql_conns_busy st) /\
     0 < db_sem st /\ is_inited st <> 0 /\
     db_sem (state_of (db_get_conn e st)) = db_sem st - 1).
Proof.
  intros [Hc Hb] Hfilled.
  assert (Hpost : forall rc s,
    mysql_conns_busy (sem_post_ignored rc s) = mysql_conns_busy s /\
    (db_sem (sem_post_ignored rc s) = db_sem s \/
     db_sem (sem_post_ignored rc s) = db_sem s + 1)).
  { intros rc s. unfold sem_post_ignored, sem_post.
    destruct (negb (rc =? 0)); simpl; auto. }
  unfold db_get_conn, sem_wait, pthread_mutex_timedlock,
    pthread_mutex_unlock, pthread_rwlock_unlock.
  destruct (is_inited st =? 0) eqn:Hinit; [left; simpl; auto|].
  destruct (negb (ge_rdlock_first e =? 0)); [left; simpl; auto|].
  destruct (is_open st =? 0) eqn:Hopen; [left; simpl; auto|].
  destruct (negb (ge_sem_wait e =? 0)); [left; simpl; auto|].
  destruct (0 <? db_sem st) eqn:Hsem; [|left; simpl; auto].
  apply Z.ltb_lt in Hsem.
  assert (Hret : forall s,
    mysql_conns_busy s = mysql_conns_busy st -> db_sem s = db_sem st - 1 ->
    mysql_conns_busy (sem_post_ignored (ge_sem_post e) s) =
      mysql_conns_busy st /\
    (db_sem (sem_post_ignored (ge_sem_post e) s) = db_sem st \/
     (0 < db_sem st /\
      db_sem (sem_post_ignored (ge_sem_post e) s) = db_sem st - 1))).
  { intros s Hbs Hss.
    destruct (Hpost (ge_sem_post e) s) as [Hb1 [Hs1|Hs1]];
      rewrite Hb1, Hs1, Hbs, Hss; (split; [reflexivity|]).
    - right. split; [exact Hsem | reflexivity].
    - left. lia. }
  destruct (negb (ge_clock_gettime e =? 0)).
  { left. cbn [state_of]. apply Hret; reflexivity. }
  destruct (negb (ge_mutex_timedlock e _ =? 0)).
  { left. cbn [state_of]. apply Hret; reflexivity. }
  cbn [db_mutex set_db_sem].
  destruct (db_mutex st).
  { left. cbn [state_of]. apply Hret; reflexivity. }
  destruct (negb (ge_rdlock_second e =? 0)).
  { left. simpl. split; [reflexivity|]. right. split; [lia | reflexivity]. }
  cbn [is_open set_db_mutex set_db_sem]. rewrite Hopen.
  destruct (get_scan _ 0 DB_POOL_CONN_COUNT) as [st1 p] eqn:Hscan.
  destruct (is_null p) eqn:Hp.
  - apply is_null_true in Hp. subst p.
    apply get_scan_null in Hscan.
    + subst st1. left. cbn [state_of]. apply Hret; reflexivity.
    + simpl. rewrite Hb. lia.
    + intros i _ Hi _. apply Hfilled; [|exact Hi].
      apply Z.eqb_neq. exact Hopen.
  - apply is_null_false in Hp.
    apply get_scan_found in Hscan; [| simpl; lia | simpl; lia | exact Hp].
    destruct Hscan as (i & Hbi & _ & ->).
    right. exists i. simpl in *.
    split; [exact Hbi|]. split; [reflexivity|]. split; [exact Hsem|].
    split; [apply Z.eqb_neq; exact Hinit | reflexivity].
Qed.

(** What [db_post_conn] does to the flags and the semaphore: nothing, or
    it clears the flag of one busy slot and posts at most one permit. *)
Lemma db_post_conn_cases (e : post_env) (h : MYSQL_ptr) (st : pool) :
  pool_wf st ->
  (mysql_conns_busy (state_of (db_post_conn e h st)) = mysql_conns_busy st /\
   db_sem (state_of (db_post_conn e h st)) = db_sem st) \/
  (exists i b,
     mysql_conns_busy st !! i = Some b /\ b <> 0 /\
     mysql_conns_busy (state_of (db_post_conn e h st)) =
       <[i:=0]> (mysql_conns_busy st) /\
     is_inited st <> 0 /\
     (db_sem (state_of (db_post_conn e h st)) = db_sem st + 1 \/
      db_sem (state_of (db_post_conn e h st)) = db_sem st)).
Proof.
  intros [Hc Hb].
  unfold db_post_conn, pthread_mutex_lock, pthread_mutex_unlock, sem_post.
  destruct (is_inited st =? 0) eqn:Hinit; [left; simpl; auto|].
  destruct (is_null h); [left; simpl; auto|].
  destruct (negb (pe_mutex_lock e =? 0)); [left; simpl; auto|].
  destruct (db_mutex st); [left; simpl; auto|].
  destruct (post_scan h _ 0 DB_POOL_CONN_COUNT) as [st1 found] eqn:Hscan.
  destruct (found =? 0) eqn:Hfound.
  - apply Z.eqb_eq in Hfound. subst found. left. simpl.
    pose proof (post_scan_frame mysql_conns_busy h) as Hfr.
    assert (Hnone : st1 = set_db_mutex true st).
    { clear -Hscan. revert Hscan.
      generalize (set_db_mutex true st) as s. generalize 0%nat as k.
      induction DB_POOL_CONN_COUNT as [|n IH]; intros k s Hscan;
        simpl in Hscan.
      - congruence.
      - destruct (negb (busy_at s k =? 0)); [discriminate|].
        apply (IH _ _ Hscan). }
    subst st1. simpl. auto.
  - apply Z.eqb_neq in Hfound.
    apply post_scan_found in Hscan; [| simpl; lia | simpl; lia | exact Hfound].
    destruct Hscan as (i & b & Hbi & Hne & Hi & ->).
    right. exists i, b. simpl in Hbi.
    split; [exact Hbi|]. split; [exact Hne|].
    destruct (negb (pe_sem_post e =? 0)) eqn:Hrc; simpl; rewrite ?Hrc; simpl;
      (split; [reflexivity|]);
      (split; [apply Z.eqb_neq; exact Hinit|]); auto.
Qed.

Lemma gate_ok_init : gate_ok init_pool.
Proof. repeat split; vm_compute; congruence. Qed.

Lemma exec_gate_ok (c : call) (st : pool) :
  pool_inv st -> gate_ok (state_of (exec c st)).
Proof.
  intros (Hwf & Hfilled & Hsem & Hsum & Huninit).
  unfold gate_ok, busy_count in *.
  destruct c as [e|e|e|e h]; simpl; rewrite state_of_outcome_map.
  - destruct (db_open_busy_sem e st) as [-> Hs].
    destruct (Z.eq_dec (is_inited st) 0) as [Hinit|Hinit].
    + specialize (Huninit Hinit).
      destruct Hs as [-> | [_ ->]]; repeat split; try lia; auto.
    + destruct Hs as [-> | [H0 _]]; [|congruence].
      repeat split; try lia.
      try (intros H0;
           rewrite (db_open_inited_frame is_inited) in H0 by auto;
           congruence).
  - pose proof (db_close_sem e st Hsem) as Hs.
    rewrite (db_close_frame mysql_conns_busy) by auto.
    rewrite (db_close_frame is_inited) by auto.
    repeat split; try lia; try exact Huninit.
  - rewrite (db_get_conn_frame is_inited) by auto.
    destruct (db_get_conn_cases e st Hwf Hfilled)
      as [[-> Hs] | (i & Hbi & -> & Hpos & Hinit & ->)].
    + repeat split; try lia; try exact Huninit.
    + rewrite (busy_flags_insert _ i 0 1 Hbi). simpl.
      repeat split; try lia; try (intros H0; congruence).
  - rewrite (db_post_conn_frame is_inited) by auto.
    destruct (db_post_conn_cases e h st Hwf)
      as [[-> ->] | (i & b & Hbi & Hne & -> & Hinit & Hs)].
    + repeat split; try lia; try exact Huninit.
    + rewrite (busy_flags_insert _ i b 0 Hbi).
      apply Z.eqb_neq in Hne. rewrite Hne. simpl.
      assert (Hge : 1 <= Z.of_nat
        (length (filter (fun x => x <> 0) (mysql_conns_busy st)))).
      { pose proof (busy_flags_insert _ i b 0 Hbi) as Hcount.
        rewrite Hne in Hcount. simpl in Hcount. lia. }
      repeat split; try lia; try (intros H0; congruence).
Qed.

Lemma exec_pool_inv (c : call) (st : pool) :
  pool_inv st -> pool_inv (state_of (exec c st)).
Proof.
  intros Hinv. split; [|split].
  - apply exec_wf, Hinv.
  - apply exec_filled, Hinv.
  - apply exec_gate_ok, Hinv.
Qed.

Lemma run_pool_inv (cs : list call) :
  forall st, pool_inv st -> pool_inv (run cs st).
Proof.
  induction cs as [|c cs IH]; intros st Hinv; [exact Hinv|].
  rewrite run_cons. pose proof (exec_pool_inv c st Hinv) as Hstep.
  destruct (exec c st) as [v st'|st']; simpl in Hstep; auto.
Qed.

Lemma pool_inv_init : pool_inv init_pool.
Proof.
  split; [exact pool_wf_init|]. split; [exact open_filled_init|].
  exact gate_ok_init.
Qed.

(** Fewer set flags than cells: some cell holds 0. *)
Lemma busy_flags_free (l : list Z) :
  (length (filter (fun x : Z => x <> 0%Z) l) < length l)%nat ->
  exists i, l !! i = Some 0.
Proof.
  induction l as [|x l IH]; intros Hlt; [simpl in Hlt; lia|].
  rewrite filter_cons in Hlt.
  destruct (decide (x <> 0)) as [Hx|Hx].
  - simpl in Hlt. destruct IH as [i Hi]; [lia|]. exists (S i). exact Hi.
  - apply dec_stable in Hx. subst x. exists 0%nat. reflexivity.
Qed.

Lemma first_free_below (st : pool) :
  forall n,
    (forall j, (j < n)%nat -> busy_at st j <> 0) \/
    (exists i0, (i0 < n)%nat /\ busy_at st i0 = 0 /\
       forall j, (j < i0)%nat -> busy_at st j <> 0).
Proof.
  induction n as [|n [Hnone|(i0 & Hlt & Hfree & Hfirst)]].
  - left. intros j Hj. lia.
  - destruct (Z.eq_dec (busy_at st n) 0) as [Hn|Hn].
    + right. exists n. split; [lia|]. split; assumption.
    + left. intros j Hj. destruct (decide (j = n)) as [->|Hne];
        [exact Hn | apply Hnone; lia].
  - right. exists i0. split; [lia|]. split; assumption.
Qed.

(** X16: a permit is a free connection.  In every pool that a sequence
    of calls leads to from the initial state, whatever their external
    calls do, a [db_get_conn] that gets through the gate and the locks
    returns a handle: the scan finds a free slot, the slot holds a
    connection, and the no-free-slot path is not taken. *)
Theorem permit_gives_connection (cs : list call) (e : get_env) :
  is_inited (run cs init_pool) <> 0 -> ge_rdlock_first e = 0 ->
  is_open (run cs init_pool) <> 0 ->
  ge_sem_wait e = 0 -> 0 < db_sem (run cs init_pool) ->
  ge_clock_gettime e = 0 ->
  ge_mutex_timedlock e (ge_tv_sec e + DEFAULT_MUTEX_TIMEOUT_SEC) = 0 ->
  db_mutex (run cs init_pool) = false -> ge_rdlock_second e = 0 ->
  exists h st',
    db_get_conn e (run cs init_pool) = Returns h st' /\
    is_null h = false /\
    h ∈ mysql_conns (run cs init_pool).
Proof.
  generalize (run_pool_inv cs init_pool pool_inv_init).
  generalize (run cs init_pool) as st. clear cs.
  intros st ([Hc Hb] & Hfilled & Hsem0 & Hsum & _).
  intros Hinit Hrd Hopen Hwait Hsem Hclock Hlock Hfree Hrd2.
  unfold busy_count in Hsum.
  destruct (busy_flags_free (mysql_conns_busy st)) as [i Hi]; [lia|].
  assert (Hilt : (i < DB_POOL_CONN_COUNT)%nat).
  { rewrite <- Hb. apply lookup_lt_Some in Hi. exact Hi. }
  assert (Hbi : busy_at st i = 0).
  { unfold busy_at. apply list_lookup_total_correct. exact Hi. }
  destruct (first_free_below st (S i)) as [Hnone|(i0 & Hlt & Hfree0 & Hfirst)].
  { exfalso. apply (Hnone i); [lia | exact Hbi]. }
  assert (Hconn : is_null (conn_at st i0) = false).
  { apply is_null_false. apply Hfilled; [exact Hopen | lia]. }
  exists (conn_at st i0). eexists.
  split; [|split; [exact Hconn|]].
  - apply Z.eqb_neq in Hinit, Hopen. apply Z.ltb_lt in Hsem.
    unfold db_get_conn, sem_wait, pthread_rwlock_unlock,
      pthread_mutex_timedlock.
    rewrite Hinit, Hrd, Hopen, Hwait. cbn -[get_scan].
    rewrite Hsem, Hclock. cbn -[get_scan]. rewrite Hlock, Hfree.
    cbn -[get_scan]. rewrite Hrd2. cbn -[get_scan]. rewrite Hopen.
    rewrite (get_scan_first_free _ i0);
      [| lia | simpl; lia | exact Hfree0
       | intros j _ Hj; apply (Hfirst j Hj)].
    unfold conn_at in *. simpl. rewrite Hconn. reflexivity.
  - unfold conn_at. apply list_elem_of_lookup_total_2. lia.
Qed.

Lemma permit_gives_connection_witness :
  exists h st',
    db_get_conn get_env_ok
      (run [Open open_env_ok; GetConn get_env_ok;
            GetConn get_env_mutex_kept] init_pool) = Returns h st' /\
    is_null h = false /\
    h ∈ mysql_conns
          (run [Open open_env_ok; GetConn get_env_ok;
                GetConn get_env_mutex_kept] init_pool).
Proof.
  apply (permit_gives_connection
           [Open open_env_ok; GetConn get_env_ok;
            GetConn get_env_mutex_kept] get_env_ok);
    try reflexivity; vm_compute; discriminate.
Defined.

(** ** The example program *)

(** [db_ping] writes [err_last] and nothing else. *)
Lemma db_ping_frame {A : Type} (f : pool -> A) (ping : Z) (h : MYSQL_ptr)
    (st : pool) :
  (forall m st, f (set_err_last m st) = f st) ->
  f (state_of (db_ping ping h st)) = f st.
Proof.
  intros Herr. unfold db_ping.
  destruct (is_inited st =? 0); [apply Herr|].
  destruct (is_null h); [apply Herr|].
  destruct (negb (ping =? 0)); [apply Herr | reflexivity].
Qed.

(** [q] writes [err_last], through [db_ping], and nothing else. *)
Lemma q_frame {A : Type} (f : pool -> A) (e : q_env) (h : MYSQL_ptr)
    (query : string) (st : pool) :
  (forall m st, f (set_err_last m st) = f st) ->
  f (snd (q e h query st)) = f st.
Proof.
  intros Herr. unfold q.
  destruct (negb (qe_query_first e =? 0)); [|reflexivity].
  destruct (qe_errno_first e =? ER_LOCK_DEADLOCK).
  - destruct (negb (qe_query_retry e =? 0)); reflexivity.
  - pose proof (db_ping_frame f (qe_ping e) h st Herr) as Hping.
    destruct (db_ping (qe_ping e) h st) as [v st'|st']; simpl in Hping.
    + destruct (negb (v =? 0)); exact Hping.
    + exact Hping.
Qed.

(** X17: [q] returns 0 exactly when its last [mysql_query] succeeded:
    the first one, or the one retry it makes when the first fails with
    [ER_LOCK_DEADLOCK]; it writes to [stderr] exactly when it returns a
    failure; and it leaves the slots, the busy flags, the semaphore and
    the state flags of the pool as they were. *)
Theorem q_result (e : q_env) (h : MYSQL_ptr) (query : string) (st : pool) :
  (fst (fst (q e h query st)) = 0 <->
   qe_query_first e = 0 \/
   (qe_errno_first e = ER_LOCK_DEADLOCK /\ qe_query_retry e = 0)) /\
  (snd (fst (q e h query st)) = [] <-> fst (fst (q e h query st)) = 0) /\
  mysql_conns (snd (q e h query st)) = mysql_conns st /\
  mysql_conns_busy (snd (q e h query st)) = mysql_conns_busy st /\
  db_sem (snd (q e h query st)) = db_sem st /\
  is_open (snd (q e h query st)) = is_open st /\
  is_closed (snd (q e h query st)) = is_closed st.
Proof.
  split; [|split].
  - unfold q. destruct (qe_query_first e =? 0) eqn:H1; simpl.
    + apply Z.eqb_eq in H1. tauto.
    + apply Z.eqb_neq in H1.
      destruct (qe_errno_first e =? ER_LOCK_DEADLOCK) eqn:H2.
      * apply Z.eqb_eq in H2.
        destruct (qe_query_retry e =? 0) eqn:H3; simpl.
        -- apply Z.eqb_eq in H3. tauto.
        -- apply Z.eqb_neq in H3. tauto.
      * apply Z.eqb_neq in H2.
        destruct (db_ping (qe_ping e) h st) as [v st'|st'];
          [destruct (negb (v =? 0))|]; simpl; tauto.
  - unfold q. destruct (qe_query_first e =? 0) eqn:H1; simpl.
    + apply Z.eqb_eq in H1. tauto.
    + apply Z.eqb_neq in H1.
      destruct (qe_errno_first e =? ER_LOCK_DEADLOCK) eqn:H2.
      * destruct (qe_query_retry e =? 0) eqn:H3; simpl.
        -- apply Z.eqb_eq in H3. tauto.
        -- apply Z.eqb_neq in H3. split; [discriminate | tauto].
      * destruct (db_ping (qe_ping e) h st) as [v st'|st'];
          [destruct (negb (v =? 0))|]; simpl;
          (split; [discriminate | tauto]).
  - repeat split; apply q_frame; auto.
Qed.

(** X18: after any sequence of calls from the initial state, a
    [clean_up] that returns (read lock and write lock obtained) leaves
    the pool reading closed, [is_open] = 0 and [is_closed] = 1, whether
    it called [db_close] or found nothing to close; the slots keep their
    connections. *)
Theorem clean_up_closes (cs : list call) (e : close_env) (st' : pool) :
  ce_wrlock e = 0 ->
  clean_up 0 e (run cs init_pool) = Returns tt st' ->
  is_open st' = 0 /\ is_closed st' = 1 /\
  mysql_conns st' = mysql_conns (run cs init_pool).
Proof.
  pose proof (run_lifecycle_ok cs init_pool
                (or_introl (conj eq_refl eq_refl))) as Hok.
  pose proof (run_open_inited cs init_pool (fun _ => conj eq_refl eq_refl))
    as Huninit.
  revert Hok Huninit. generalize (run cs init_pool) as st. clear cs.
  intros st Hok Huninit Hwr Hres.
  unfold clean_up, db_is_closed, pthread_rwlock_unlock in Hres.
  destruct (is_inited st =? 0) eqn:Hinit.
  - apply Z.eqb_eq in Hinit. simpl in Hres. injection Hres as <-.
    destruct (Huninit Hinit) as [Ho Hc]. repeat split; assumption.
  - simpl in Hres. destruct (is_closed st =? 0) eqn:Hclosed.
    + apply Z.eqb_eq in Hclosed. apply Z.eqb_neq in Hinit.
      assert (Hst' : st' = state_of (db_close e st)).
      { destruct (db_close e st) as [v s|s]; simpl in Hres;
          [injection Hres as <-; reflexivity | discriminate]. }
      subst st'. clear Hres.
      rewrite (db_close_frame mysql_conns) by auto.
      split; [|split; [|reflexivity]].
      * unfold db_close, pthread_rwlock_unlock.
        apply Z.eqb_neq in Hinit. rewrite Hinit, Hwr, Hclosed.
        cbn [negb Z.eqb].
        destruct (close_drain e _ 0 _) as [o|] eqn:Hdrain; [|reflexivity].
        rewrite (close_drain_frame is_open e (fun _ _ => eq_refl)
                   (fun _ _ => eq_refl) (fun _ _ => eq_refl) _ _ _ _ Hdrain).
        reflexivity.
      * unfold db_close, pthread_rwlock_unlock.
        apply Z.eqb_neq in Hinit. rewrite Hinit, Hwr, Hclosed.
        cbn [negb Z.eqb].
        destruct (close_drain e _ 0 _) as [o|] eqn:Hdrain; [|reflexivity].
        rewrite (close_drain_frame is_closed e (fun _ _ => eq_refl)
                   (fun _ _ => eq_refl) (fun _ _ => eq_refl) _ _ _ _ Hdrain).
        reflexivity.
    + injection Hres as <-. apply Z.eqb_neq in Hclosed.
      destruct Hok as [[Ho Hc]|[Ho Hc]]; [|congruence].
      repeat split; assumption.
Qed.

Lemma clean_up_closes_witness :
  is_open closed_pool = 0 /\ is_closed closed_pool = 1 /\
  mysql_conns closed_pool = mysql_conns (run [Open open_env_ok] init_pool).
Proof.
  apply (clean_up_closes [Open open_env_ok] close_env_ok closed_pool).
  - reflexivity.
  - vm_compute. reflexivity.
Defined.

Lemma db_get_conn_inited (e : get_env) (st st' : pool) (h : MYSQL_ptr) :
  db_get_conn e st = Returns h st' -> h <> NULL -> is_inited st <> 0.
Proof.
  intros Hres Hh H0. unfold db_get_conn in Hres. rewrite H0 in Hres.
  simpl in Hres. congruence.
Qed.

(** The scan of [db_post_conn] finds a busy slot when there is one. *)
Lemma post_scan_finds (h : MYSQL_ptr) (st : pool) (i : nat) :
  busy_at st i <> 0 ->
  forall fuel k, (k <= i)%nat -> (i < k + fuel)%nat ->
    snd (post_scan h st k fuel) = 1.
Proof.
  intros Hbusy. induction fuel as [|fuel IH]; intros k Hk Hi; [lia|].
  simpl. destruct (busy_at st k =? 0) eqn:Hk0; simpl; [|reflexivity].
  apply IH; [|lia]. destruct (decide (k = i)) as [->|Hne]; [|lia].
  apply Z.eqb_eq in Hk0. congruence.
Qed.

(** With a busy slot, the mutex and [sem_post] obtained, [db_post_conn]
    of a non-null handle returns 0. *)
Lemma db_post_conn_returns_0 (e : post_env) (h : MYSQL_ptr) (st : pool)
    (i : nat) :
  is_inited st <> 0 -> h <> NULL -> pe_mutex_lock e = 0 ->
  db_mutex st = false -> pe_sem_post e = 0 ->
  (i < DB_POOL_CONN_COUNT)%nat -> busy_at st i <> 0 ->
  exists st', db_post_conn e h st = Returns 0 st'.
Proof.
  intros Hinit Hh Hlock Hfree Hpost Hi Hbusy.
  apply Z.eqb_neq in Hinit. apply is_null_false in Hh.
  unfold db_post_conn, pthread_mutex_lock, sem_post.
  rewrite Hinit, Hh, Hlock, Hfree, Hpost. cbn -[post_scan].
  pose proof (post_scan_finds h (set_db_mutex true st) i Hbusy
                DB_POOL_CONN_COUNT 0 ltac:(lia) ltac:(simpl; lia)) as Hfound.
  destruct (post_scan h _ 0 DB_POOL_CONN_COUNT) as [st1 found].
  simpl in Hfound. subst found. cbn. eexists. reflexivity.
Qed.

(** X19: when its [db_get_conn] returns a handle, and the mutex and
    [sem_post] of its [db_post_conn] are obtained, [simple_query_example]
    returns what [q] returned, wrote what [q] wrote, and has given the
    handle back whatever the query did: the semaphore, the number of busy
    slots and, up to their order, the free connections are as before. *)
Theorem simple_query_example_gives_back (e : example_env) (st st1 : pool)
    (h : MYSQL_ptr) :
  pool_wf st ->
  db_get_conn (xe_get e) st = Returns h st1 -> is_null h = false ->
  pe_mutex_lock (xe_post e) = 0 -> pe_sem_post (xe_post e) = 0 ->
  exists st',
    simple_query_example e st =
      Returns (fst (q (xe_q e) h example_query st1)) st' /\
    db_sem st' = db_sem st /\
    busy_count st' = busy_count st /\
    pool_free_conns st' ≡ₚ pool_free_conns st.
Proof.
  intros Hwf Hget Hh Hlock Hpost.
  pose proof Hh as Hnn. apply is_null_false in Hnn.
  pose proof (db_get_conn_inited _ _ _ _ Hget Hnn) as Hinit.
  destruct (db_get_conn_inv _ st st1 h Hwf Hget Hnn)
    as (i & Hbi & Hci & Hsem & _ & Hst1).
  assert (Hwf1 : pool_wf st1).
  { pose proof (db_get_conn_wf (xe_get e) st Hwf) as H.
    rewrite Hget in H. exact H. }
  set (st2 := snd (q (xe_q e) h example_query st1)).
  assert (Hconns2 : mysql_conns st2 = mysql_conns st1)
    by (apply q_frame; auto).
  assert (Hbusy2 : mysql_conns_busy st2 = mysql_conns_busy st1)
    by (apply q_frame; auto).
  assert (Hsem2 : db_sem st2 = db_sem st1) by (apply q_frame; auto).
  assert (Hmutex2 : db_mutex st2 = db_mutex st1) by (apply q_frame; auto).
  assert (Hinit2 : is_inited st2 = is_inited st1) by (apply q_frame; auto).
  assert (Hwf2 : pool_wf st2).
  { destruct Hwf1 as [H1 H2]. split; congruence. }
  assert (Hilt : (i < DB_POOL_CONN_COUNT)%nat).
  { destruct Hwf as [_ Hb]. rewrite <- Hb.
    apply lookup_lt_Some in Hbi. exact Hbi. }
  destruct (db_post_conn_returns_0 (xe_post e) h st2 i) as [st' Hpost'];
    try assumption.
  { rewrite Hinit2, Hst1. exact Hinit. }
  { rewrite Hmutex2, Hst1. reflexivity. }
  { unfold busy_at. rewrite Hbusy2, Hst1. simpl.
    rewrite list_lookup_total_insert_eq; [discriminate|].
    apply lookup_lt_Some in Hbi. exact Hbi. }
  exists st'. split.
  { unfold simple_query_example. rewrite Hget, Hh.
    destruct (q (xe_q e) h example_query st1) as [[r out] s] eqn:Hq.
    subst st2. simpl in Hpost' |- *. rewrite Hpost'. reflexivity. }
  destruct (db_post_conn_inv (xe_post e) st2 st' h Hwf2 Hpost')
    as (j & b & Hbj & Hne & Hj & _ & ->).
  unfold busy_count, pool_free_conns. simpl.
  rewrite Hsem2, Hbusy2, Hconns2 in *. rewrite Hst1 in *. simpl in *.
  split; [lia|]. split.
  - rewrite (busy_flags_insert _ j b 0 Hbj).
    rewrite (busy_flags_insert _ i 0 1 Hbi).
    apply Z.eqb_neq in Hne. rewrite Hne. simpl. lia.
  - rewrite (free_conns_give _ _ _ b _ Hj Hbj Hne).
    symmetry. apply free_conns_take; assumption.
Qed.

Lemma simple_query_example_gives_back_witness :
  exists st',
    simple_query_example example_env_query_fails open_pool =
      Returns (fst (q (xe_q example_env_query_fails) (Addr 1) example_query
                      one_lent_pool)) st' /\
    db_sem st' = db_sem open_pool /\
    busy_count st' = busy_count open_pool /\
    pool_free_conns st' ≡ₚ pool_free_conns open_pool.
Proof.
  apply (simple_query_example_gives_back example_env_query_fails open_pool
           one_lent_pool (Addr 1)).
  - exact pool_wf_open.
  - vm_compute. reflexivity.
  - reflexivity.
  - reflexivity.
  - reflexivity.
Defined.

(** The run of the witness: the query fails, one line is written, and the
    function returns the code of [mysql_query]. *)
Example simple_query_example_run :
  outcome_map fst (simple_query_example example_env_query_fails open_pool) =
    Returns 1 open_pool /\
  query_line "q" 1062 = "db query: q; errno: 1062" +:+ newline.
Proof. split; vm_compute; reflexivity. Qed.
